(** * owasync: the poll / filter / relay / acknowledge loop of iris-owa-sync

    A shallow embedding of [src/iris/bin/owasync.py] (functions
    [is_pointless_message], [relay] and [poll], the proxy adapter and the
    sleep interval and scheduler loop of [main]) together with the
    properties of the specification that concern them.

    Python text is a sequence of Unicode code points, Python integers are
    unbounded ([Z]), the process-wide [stats] dictionary of the metrics
    module is a finite map from names to integers, and the effects of the
    program (metrics, log records, HTTP requests, bulk updates and raised
    exceptions) are threaded through a state-and-exception monad.

    The mailbox provider and the downstream API are parameters: an
    [Account] and an [IrisClient] say what they answer and what they raise.
    The model is sequential: one poll cycle runs from start to end, and the
    background task that flushes the metrics is not part of it. *)

From Stdlib Require Import ZArith NArith Ascii String List Permutation.
From stdpp Require Import gmap strings list.

Local Open Scope Z_scope.

(** ** Python text *)

(** A [str] is a list of Unicode code points. *)
Definition str : Type := list N.

(** An ASCII literal of the source, as a [str]. *)
Definition lit (s : string) : str :=
  map N_of_ascii (list_ascii_of_string s).

(** The code points [str.strip()] removes when called without argument:
    those for which [str.isspace] holds (CPython's [_PyUnicode_IsWhitespace]). *)
Definition isspace (c : N) : bool :=
  ((9 <=? c) && (c <=? 13) ||
   (28 <=? c) && (c <=? 32) ||
   (c =? 133) || (c =? 160) || (c =? 5760) ||
   (8192 <=? c) && (c <=? 8202) ||
   (c =? 8232) || (c =? 8233) || (c =? 8239) || (c =? 8287) ||
   (c =? 12288))%N.

Fixpoint lstrip (s : str) : str :=
  match s with
  | c :: s' => if isspace c then lstrip s' else s
  | [] => []
  end.

Definition rstrip (s : str) : str := rev (lstrip (rev s)).

(** [s.strip()]: the left scan stops at the first non-space code point, the
    right scan at the last one. *)
Definition strip (s : str) : str := rstrip (lstrip s).

(** ** Headers and the ignore rules *)

(** A header as the mailbox provider hands it over: an object with the
    attributes [name] and [value]. *)
Record MessageHeader := { name : str; value : str }.

(** A header in the format the downstream API expects: the dictionary
    [{'name': ..., 'value': ...}].  Two such dictionaries are equal exactly
    when both entries are. *)
Record Header := { hname : str; hvalue : str }.

#[global] Instance MessageHeader_eq_dec : EqDecision MessageHeader.
Proof. solve_decision. Defined.

#[global] Instance Header_eq_dec : EqDecision Header.
Proof. solve_decision. Defined.

(** The three rule pairs of the frozenset, in the order the source lists
    them. *)
Definition email_headers_to_ignore : list (str * str) :=
  [ (lit "X-Autoreply", lit "yes");
    (lit "Auto-Submitted", lit "auto-replied");
    (lit "Precedence", lit "bulk") ].

(** [d in headers] for a list of dictionaries. *)
Definition header_in (d : Header) (headers : list Header) : bool :=
  bool_decide (d ∈ headers).

(** ** Messages, requests and responses *)

Record Mailbox := { email_address : str }.

(** A message as the mailbox provider yields it, with the fields the
    program reads.  Every field the provider may leave out is optional:
    [headers] is [None] when the provider returned no header list,
    [to_recipients] is [None] or an empty list when there is no recipient
    (both are falsy), and [sender] and [text_body] are [None] when the
    provider returned none.  The program guards the first two and reads
    the last two unguarded ([message.sender.email_address],
    [message.text_body.strip()]). *)
Record Message := {
  message_id : str;
  sender : option Mailbox;
  to_recipients : option (list Mailbox);
  headers : option (list MessageHeader);
  text_body : option str;
  is_read : bool
}.

(** [message.is_read = v] *)
Definition set_is_read (v : bool) (m : Message) : Message :=
  {| message_id := message_id m; sender := sender m;
     to_recipients := to_recipients m; headers := headers m;
     text_body := text_body m; is_read := v |}.

(** The dictionary [{'headers': ..., 'body': ...}] sent as JSON. *)
Record Payload := { payload_headers : list Header; payload_body : str }.

Record Request := { path : string; json : Payload }.

Record Response := { status_code : Z }.

(** ** Exceptions

    The handlers of the source select on two class hierarchies; every other
    exception class passes through them. *)
Inductive exn :=
| EWSError (detail : string)
| RequestException (detail : string)
| OtherException (detail : string).

(** What reading an attribute of [None] raises: a class outside the two
    hierarchies. *)
Definition AttributeError : exn := OtherException "AttributeError".

Definition is_EWSError (e : exn) : bool :=
  match e with EWSError _ => true | _ => false end.

Definition is_RequestException (e : exn) : bool :=
  match e with RequestException _ => true | _ => false end.

Inductive result (A : Type) :=
| Return (a : A)
| Raise (e : exn).
Arguments Return {A} a.
Arguments Raise {A} e.

(** ** The world the program acts on *)

Inductive Level := INFO | WARNING | ERROR.

Inductive LogArg := ArgStr (s : str) | ArgInt (n : Z).

(** One record handed to the root logger; [exc_info] is the exception
    [logger.exception] attaches. *)
Record LogRecord := {
  level : Level;
  fmt : string;
  args : list LogArg;
  exc_info : option exn
}.

(** An item of a bulk update: the message and the tuple of changed fields. *)
Definition UpdateItem : Type := Message * list string.

Record World := {
  metrics : gmap string Z;               (* stats of the metrics module *)
  log : list LogRecord;                  (* records logged so far *)
  posted : list Request;                 (* HTTP POSTs issued so far *)
  bulk_updates : list (list UpdateItem)  (* bulk_update calls issued so far *)
}.

Definition default_metrics : gmap string Z :=
  list_to_map
    [ ("owa_api_failure_count"%string, 0);
      ("message_relay_success_count"%string, 0);
      ("message_relay_failure_count"%string, 0);
      ("total_inbox_count"%string, 0);
      ("unread_inbox_count"%string, 0);
      ("message_process_count"%string, 0);
      ("message_ignore_count"%string, 0) ].

(** The world right after [metrics.init(config, 'iris-owa-sync', default_metrics)]. *)
Definition initial_world : World :=
  {| metrics := default_metrics; log := []; posted := []; bulk_updates := [] |}.

(** ** The state-and-exception monad *)

Definition Py (A : Type) : Type := World -> World * result A.

#[global] Instance Py_ret : MRet Py := fun A a w => (w, Return a).

#[global] Instance Py_bind : MBind Py := fun A B f m w =>
  match m w with
  | (w', Return a) => f a w'
  | (w', Raise e) => (w', Raise e)
  end.

Definition raise {A} (e : exn) : Py A := fun w => (w, Raise e).

(** [try: body except <class>: handler], where [catches] tests the class. *)
Definition try_except {A} (body : Py A) (catches : exn -> bool)
    (handler : exn -> Py A) : Py A := fun w =>
  match body w with
  | (w', Raise e) => if catches e then handler e w' else (w', Raise e)
  | (w', Return a) => (w', Return a)
  end.

(** [obj.attr], where [obj] may be [None]. *)
Definition attribute {A B} (obj : option A) (attr : A -> B) : Py B :=
  match obj with
  | Some o => mret (attr o)
  | None => raise AttributeError
  end.

(** A value the environment either delivers or replaces by an exception. *)
Definition deliver {A} (r : result A) : Py A := fun w => (w, r).

(** ** Logging *)

Definition emit (r : LogRecord) : Py unit := fun w =>
  ({| metrics := metrics w; log := log w ++ [r]; posted := posted w;
      bulk_updates := bulk_updates w |}, Return tt).

Definition logger_info (f : string) (a : list LogArg) : Py unit :=
  emit {| level := INFO; fmt := f; args := a; exc_info := None |}.

Definition logger_warning (f : string) (a : list LogArg) : Py unit :=
  emit {| level := WARNING; fmt := f; args := a; exc_info := None |}.

Definition logger_exception (f : string) (a : list LogArg) (e : exn) : Py unit :=
  emit {| level := ERROR; fmt := f; args := a; exc_info := Some e |}.

(** ** Metrics *)

Definition update_metrics (f : gmap string Z -> gmap string Z) : Py unit := fun w =>
  ({| metrics := f (metrics w); log := log w; posted := posted w;
      bulk_updates := bulk_updates w |}, Return tt).

(** Modelled from the spec: [metrics.set] of the module [iris.metrics],
    which is not among the sources.  The metrics sink exposes
    [set(name, value)] on named gauges. *)
Definition metrics_set (key : string) (v : Z) : Py unit :=
  update_metrics (fun stats => <[key := v]> stats).

(** Modelled from the spec: [metrics.incr] of the module [iris.metrics],
    which is not among the sources.  The metrics sink exposes [incr(name)]
    on named counters, all initialised to zero at startup. *)
Definition metrics_incr (key : string) : Py unit :=
  update_metrics (fun stats => <[key := default 0 (stats !! key) + 1]> stats).

(** The value of a counter. *)
Definition counter (key : string) (w : World) : Z := default 0 (metrics w !! key).

(** ** The downstream client *)

(** The client is a parameter of [relay]: the behaviour of the downstream
    API as seen through [iris_client.post], which gives, for the requests
    issued before and the request at hand, a response or an exception. *)
Record IrisClient := { respond : list Request -> Request -> result Response }.

(** [iris_client.post(p, json=data)]: the request is issued, then answered. *)
Definition post (iris_client : IrisClient) (p : string) (data : Payload) : Py Response := fun w =>
  let request := {| path := p; json := data |} in
  ({| metrics := metrics w; log := log w; posted := posted w ++ [request];
      bulk_updates := bulk_updates w |},
   respond iris_client (posted w) request).

(** [Response.raise_for_status()] of the requests library: an [HTTPError]
    (a [RequestException]) for the client-error and server-error status
    codes, nothing otherwise. *)
Definition raise_for_status (r : Response) : Py unit :=
  if (400 <=? status_code r) && (status_code r <? 600)
  then raise (RequestException "HTTPError")
  else mret tt.

(** ** The mailbox provider *)

(** What the account does during one poll cycle: the two inbox counts, the
    unread messages the query yields (newest first) followed, possibly, by
    an exception raised by the iteration, and the reaction to a bulk
    update. *)
Record Account := {
  total_count : result Z;
  unread_count : result Z;
  unread : list Message;
  unread_failure : option exn;
  bulk_update_failure : list UpdateItem -> option exn
}.

(** [account.bulk_update(items=items)]: the call is issued, then answered. *)
Definition bulk_update (account : Account) (items : list UpdateItem) : Py unit := fun w =>
  ({| metrics := metrics w; log := log w; posted := posted w;
      bulk_updates := bulk_updates w ++ [items] |},
   match bulk_update_failure account items with
   | Some e => Raise e
   | None => Return tt
   end).

(** ** The program *)

(** The loop of [is_pointless_message] over the rules still to try. *)
Fixpoint is_pointless_message_among (rules : list (str * str))
    (headers : list Header) : Py bool :=
  match rules with
  | [] => mret false
  | header :: rules' =>
      if header_in {| hname := header.1; hvalue := header.2 |} headers
      then
        logger_warning "Filtering out message due to header combination %s: %s"
          [ArgStr header.1; ArgStr header.2];;
        mret true
      else is_pointless_message_among rules' headers
  end.

Definition is_pointless_message (headers : list Header) : Py bool :=
  is_pointless_message_among email_headers_to_ignore headers.

(** The path a call of [relay] took.  The Python function returns [None] on
    every path; the outcome names the path. *)
Inductive RelayOutcome := Sent | Ignored | Failed.

(** [message.to_recipients[0]] when [message.to_recipients] is truthy. *)
Definition first_recipient (message : Message) : option Mailbox :=
  match to_recipients message with
  | Some (recipient :: _) => Some recipient
  | _ => None
  end.

Definition header_dict (header : MessageHeader) : Header :=
  {| hname := name header; hvalue := value header |}.

(** The header list after the synthetic [To] header, if any, was
    appended to the original headers [hs]. *)
Definition with_recipient (message : Message) (hs : list Header) : list Header :=
  match first_recipient message with
  | Some recipient => hs ++ [{| hname := lit "To"; hvalue := email_address recipient |}]
  | None => hs
  end.

(** The header list of the payload for the original headers [hs] and the
    address [from] of the sender. *)
Definition outgoing_headers (message : Message) (from : str) (hs : list Header)
    : list Header :=
  with_recipient message hs ++ [{| hname := lit "From"; hvalue := from |}].

Definition relay (message : Message) (iris_client : IrisClient) : Py RelayOutcome :=
  match headers message with
  | None =>
      from ← attribute (sender message) email_address;
      logger_info "Ignoring message with no headers %s (from %s)"
        [ArgStr (message_id message); ArgStr from];;
      metrics_incr "message_ignore_count";;
      mret Ignored
  | Some message_headers =>
      let hs := map header_dict message_headers in
      pointless ← is_pointless_message hs;
      if pointless : bool then
        from ← attribute (sender message) email_address;
        logger_info "Not relaying pointless message %s (from %s) to iris-api"
          [ArgStr (message_id message); ArgStr from];;
        metrics_incr "message_ignore_count";;
        mret Ignored
      else
        let hs := with_recipient message hs in
        from ← attribute (sender message) email_address;
        let hs := hs ++ [{| hname := lit "From"; hvalue := from |}] in
        body ← attribute (text_body message) strip;
        let data := {| payload_headers := hs; payload_body := body |} in
        try_except
          (response ← post iris_client "response/email" data;
           raise_for_status response;;
           metrics_incr "message_relay_success_count";;
           mret Sent)
          is_RequestException
          (fun e =>
             metrics_incr "message_relay_failure_count";;
             from ← attribute (sender message) email_address;
             logger_exception "Failed posting message %s (from %s) to iris-api"
               [ArgStr (message_id message); ArgStr from] e;;
             mret Failed)
  end.

(** The two local variables of [poll] that the loop updates. *)
Record Locals := {
  processed_messages : Z;
  messages_to_mark_read : list UpdateItem
}.

(** The [for] loop of [poll] over the messages the query still yields;
    [failure] is what the iteration raises once they are exhausted.  The
    result carries the locals as the loop leaves them and the exception, if
    any, that ended it. *)
Fixpoint for_each_message (iris_client : IrisClient) (messages : list Message)
    (failure : option exn) (vars : Locals) (w : World) : World * Locals * option exn :=
  match messages with
  | [] => (w, vars, failure)
  | message :: rest =>
      let vars := {| processed_messages := processed_messages vars + 1;
                     messages_to_mark_read := messages_to_mark_read vars |} in
      match relay message iris_client w with
      | (w, Raise e) => (w, vars, Some e)
      | (w, Return _) =>
          let message := set_is_read true message in
          let vars := {| processed_messages := processed_messages vars;
                         messages_to_mark_read :=
                           messages_to_mark_read vars ++ [(message, ["is_read"%string])] |} in
          for_each_message iris_client rest failure vars w
      end
  end.

(** The first [try] statement of [poll]: the two inbox counts. *)
Definition gather_counts (account : Account) : Py unit :=
  try_except
    (total ← deliver (total_count account);
     metrics_set "total_inbox_count" total;;
     unread_now ← deliver (unread_count account);
     metrics_set "unread_inbox_count" unread_now)
    is_EWSError
    (fun e =>
       logger_exception "Failed to gather inbox counts from OWA API" [] e;;
       metrics_incr "owa_api_failure_count").

(** The loop of [poll], started on the fresh locals. *)
Definition run_loop (account : Account) (iris_client : IrisClient) (w : World)
    : World * Locals * option exn :=
  for_each_message iris_client (unread account) (unread_failure account)
    {| processed_messages := 0; messages_to_mark_read := [] |} w.

(** The second [try] statement of [poll]: the loop and its handler. *)
Definition iterate_inbox (account : Account) (iris_client : IrisClient) : Py Locals := fun w =>
  match run_loop account iris_client w with
  | (w, vars, None) => (w, Return vars)
  | (w, vars, Some e) =>
      if is_EWSError e then
        (logger_exception "Failed to iterate through inbox" [] e;;
         metrics_incr "owa_api_failure_count";;
         mret vars) w
      else (w, Raise e)
  end.

(** The [if messages_to_mark_read:] statement of [poll]. *)
Definition mark_read (account : Account) (items : list UpdateItem) : Py unit :=
  match items with
  | [] => mret tt
  | _ :: _ =>
      let bulk_update_count := Z.of_nat (length items) in
      logger_info "will mark %s messages as read" [ArgInt bulk_update_count];;
      try_except
        (bulk_update account items)
        is_EWSError
        (fun e =>
           logger_exception "Failed to update read status on %s messages in bulk"
             [ArgInt bulk_update_count] e;;
           metrics_incr "owa_api_failure_count")
  end.

Definition poll (account : Account) (iris_client : IrisClient) : Py Z :=
  gather_counts account;;
  vars ← iterate_inbox account iris_client;
  mark_read account (messages_to_mark_read vars);;
  metrics_set "message_process_count" (processed_messages vars);;
  mret (processed_messages vars).

(** * Vocabulary of the properties *)

(** ** Counters *)

(** The map [metrics.incr(key)] leaves behind. *)
Definition bumped (key : string) (stats : gmap string Z) : gmap string Z :=
  <[key := default 0 (stats !! key) + 1]> stats.

(** The counters [relay] writes. *)
Definition relay_counters : list string :=
  ["message_ignore_count"; "message_relay_success_count"; "message_relay_failure_count"]%string.

(** The names of [default_metrics]. *)
Definition metric_names : list string :=
  ["owa_api_failure_count"; "message_relay_success_count"; "message_relay_failure_count";
   "total_inbox_count"; "unread_inbox_count"; "message_process_count";
   "message_ignore_count"]%string.

(** From [w] to [w'] no metric outside [keys] changed and none was
    removed. *)
Definition writes_only (keys : list string) (w w' : World) : Prop :=
  forall key,
    (key ∉ keys -> metrics w' !! key = metrics w !! key) /\
    (is_Some (metrics w !! key) -> is_Some (metrics w' !! key)).

(** ** Log records of the source *)

(** The world after one more log record. *)
Definition logged (r : LogRecord) (w : World) : World :=
  {| metrics := metrics w; log := log w ++ [r]; posted := posted w;
     bulk_updates := bulk_updates w |}.

(** The warning of [is_pointless_message] for the rule that fired. *)
Definition rule_warning (rule : str * str) : LogRecord :=
  {| level := WARNING;
     fmt := "Filtering out message due to header combination %s: %s";
     args := [ArgStr rule.1; ArgStr rule.2]; exc_info := None |}.

(** The record [relay] logs when the POST failed with [e]. *)
Definition relay_error (message : Message) (from : Mailbox) (e : exn) : LogRecord :=
  {| level := ERROR; fmt := "Failed posting message %s (from %s) to iris-api";
     args := [ArgStr (message_id message); ArgStr (email_address from)];
     exc_info := Some e |}.

(** The record [poll] logs when gathering the counts failed with [e]. *)
Definition counts_error (e : exn) : LogRecord :=
  {| level := ERROR; fmt := "Failed to gather inbox counts from OWA API";
     args := []; exc_info := Some e |}.

(** The record [poll] logs when the iteration failed with [e]. *)
Definition iteration_error (e : exn) : LogRecord :=
  {| level := ERROR; fmt := "Failed to iterate through inbox";
     args := []; exc_info := Some e |}.

(** The record [poll] logs when the bulk update of [n] items failed with
    [e]. *)
Definition bulk_update_error (n : Z) (e : exn) : LogRecord :=
  {| level := ERROR; fmt := "Failed to update read status on %s messages in bulk";
     args := [ArgInt n]; exc_info := Some e |}.

(** The records of level ERROR, in order. *)
Definition errors (l : list LogRecord) : list LogRecord :=
  List.filter (fun r => match level r with ERROR => true | _ => false end) l.

(** ** Rules and paths of [relay] *)

(** A rule pair as the dictionary the classifier looks for. *)
Definition rule_header (rule : str * str) : Header :=
  {| hname := rule.1; hvalue := rule.2 |}.

(** Some rule of [rules] occurs verbatim in [headers]. *)
Definition matches_among (rules : list (str * str)) (headers : list Header) : bool :=
  existsb (fun rule => header_in (rule_header rule) headers) rules.

(** Some rule of the ignore set occurs verbatim in [headers]. *)
Definition matches (headers : list Header) : bool :=
  matches_among email_headers_to_ignore headers.

(** The request [relay] issues for a message with original headers [hs],
    sender [from] and text body [body]. *)
Definition relay_request (message : Message) (hs : list MessageHeader)
    (from : Mailbox) (body : str) : Request :=
  {| path := "response/email";
     json := {| payload_headers :=
                  outgoing_headers message (email_address from) (map header_dict hs);
                payload_body := strip body |} |}.

(** The request a call of [relay] issues for [message], if any: the message
    has headers that match no rule, a sender and a text body. *)
Definition request_of (message : Message) : option Request :=
  match headers message, sender message, text_body message with
  | Some hs, Some from, Some body =>
      if matches (map header_dict hs) then None
      else Some (relay_request message hs from body)
  | _, _, _ => None
  end.

(** The requests [relay] issues for [messages], in their order. *)
Definition requests_of (messages : list Message) : list Request :=
  omap request_of messages.

(** The message is on a path where [relay] ignores it: no header list, or
    one that matches a rule. *)
Definition ignorable (message : Message) : bool :=
  match headers message with
  | Some hs => matches (map header_dict hs)
  | None => true
  end.

(** [relay] finds every field it reads: the sender and, unless the message
    is ignored, the text body. *)
Definition readable (message : Message) : bool :=
  match sender message with
  | Some _ => ignorable message || bool_decide (is_Some (text_body message))
  | None => false
  end.

(** The number of messages that satisfy [p]. *)
Definition count_of (p : Message -> bool) (messages : list Message) : Z :=
  Z.of_nat (length (List.filter p messages)).

(** What a call of [relay] that issues [request] for [message] does, given
    the answer of the downstream API. *)
Definition relay_posts (iris_client : IrisClient) (message : Message) (from : Mailbox)
    (request : Request) (w w' : World) (r : result RelayOutcome) : Prop :=
  posted w' = posted w ++ [request] /\
  match respond iris_client (posted w) request with
  | Return response =>
      if (400 <=? status_code response) && (status_code response <? 600)
      then r = Return Failed /\
           metrics w' = bumped "message_relay_failure_count" (metrics w) /\
           log w' = log w ++ [relay_error message from (RequestException "HTTPError")]
      else r = Return Sent /\
           metrics w' = bumped "message_relay_success_count" (metrics w) /\
           log w' = log w
  | Raise e =>
      if is_RequestException e
      then r = Return Failed /\
           metrics w' = bumped "message_relay_failure_count" (metrics w) /\
           log w' = log w ++ [relay_error message from e]
      else r = Raise e /\ metrics w' = metrics w /\ log w' = log w
  end.

(** What a call of [relay] that ignores the message does. *)
Definition relay_ignores (w w' : World) (r : result RelayOutcome) : Prop :=
  r = Return Ignored /\ posted w' = posted w /\
  metrics w' = bumped "message_ignore_count" (metrics w) /\
  errors (log w') = errors (log w).

(** What a call of [relay] that reads a missing field does. *)
Definition relay_aborts (w w' : World) (r : result RelayOutcome) : Prop :=
  r = Raise AttributeError /\ posted w' = posted w /\
  metrics w' = metrics w /\
  errors (log w') = errors (log w).

(** The ERROR records a call of [relay] adds, given the requests posted
    before. *)
Definition relay_errors (iris_client : IrisClient) (history : list Request)
    (message : Message) : list LogRecord :=
  match request_of message, sender message with
  | Some request, Some from =>
      match respond iris_client history request with
      | Return response =>
          if (400 <=? status_code response) && (status_code response <? 600)
          then [relay_error message from (RequestException "HTTPError")]
          else []
      | Raise e => if is_RequestException e then [relay_error message from e] else []
      end
  | _, _ => []
  end.

(** The ERROR records the relay calls of a cycle add, when each call
    returns. *)
Fixpoint loop_errors (iris_client : IrisClient) (history : list Request)
    (messages : list Message) : list LogRecord :=
  match messages with
  | [] => []
  | message :: rest =>
      relay_errors iris_client history message ++
      loop_errors iris_client (history ++ requests_of [message]) rest
  end.

(** ** The error classes of the collaborators *)

(** The count properties of the inbox fail with a provider error only. *)
Definition counts_raise_only_EWSError (account : Account) : Prop :=
  (forall e, total_count account = Raise e -> is_EWSError e = true) /\
  (forall e, unread_count account = Raise e -> is_EWSError e = true).

(** Every failure of the mailbox provider is a provider error. *)
Definition raises_only_EWSError (account : Account) : Prop :=
  counts_raise_only_EWSError account /\
  (forall e, unread_failure account = Some e -> is_EWSError e = true) /\
  (forall items e, bulk_update_failure account items = Some e -> is_EWSError e = true).

(** Every failure of the POST is a request error. *)
Definition raises_only_RequestException (iris_client : IrisClient) : Prop :=
  forall history request e,
    respond iris_client history request = Raise e -> is_RequestException e = true.

(** Every message the query yields has the fields [relay] reads. *)
Definition all_readable (account : Account) : Prop :=
  List.forallb readable (unread account) = true.

(** ** The relay attempts of a cycle *)

(** The relay attempts of a cycle, replayed message by message: each
    message the loop reaches, with what [relay] did on it.  An attempt that
    raises ends the loop. *)
Fixpoint relay_attempts (iris_client : IrisClient) (messages : list Message)
    (w : World) : list (Message * result RelayOutcome) :=
  match messages with
  | [] => []
  | message :: rest =>
      match relay message iris_client w with
      | (w', Return outcome) =>
          (message, Return outcome) :: relay_attempts iris_client rest w'
      | (_, Raise e) => [(message, Raise e)]
      end
  end.

(** The messages whose relay attempt completed, whatever its outcome. *)
Definition completed (attempts : list (Message * result RelayOutcome)) : list Message :=
  omap (fun attempt =>
          match attempt.2 with
          | Return _ => Some attempt.1
          | Raise _ => None
          end) attempts.

(** The exception, if any, that ended the attempts. *)
Definition raised (attempts : list (Message * result RelayOutcome)) : option exn :=
  match last attempts with
  | Some (_, Raise e) => Some e
  | _ => None
  end.

(** The message as the provider yielded it, with the read flag set: every
    other field is the original one. *)
Definition marked_read (message : Message) : Message :=
  {| message_id := message_id message; sender := sender message;
     to_recipients := to_recipients message; headers := headers message;
     text_body := text_body message; is_read := true |}.

(** The entry [poll] appends for a message. *)
Definition pending_item (message : Message) : UpdateItem :=
  (marked_read message, ["is_read"%string]).

(** ** The failures of a cycle *)

(** The provider failures of a cycle: at most one per block of [poll]. *)
Definition provider_failures (account : Account) : Z :=
  match total_count account, unread_count account with
  | Return _, Return _ => 0
  | _, _ => 1
  end +
  match unread_failure account with Some _ => 1 | None => 0 end +
  match unread account with
  | [] => 0
  | _ :: _ =>
      match bulk_update_failure account (map pending_item (unread account)) with
      | Some _ => 1
      | None => 0
      end
  end.

(** The ERROR records of the three provider blocks of a cycle in which
    every message is processed. *)
Definition counts_errors (account : Account) : list LogRecord :=
  match total_count account, unread_count account with
  | Return _, Return _ => []
  | Return _, Raise e => [counts_error e]
  | Raise e, _ => [counts_error e]
  end.

Definition iteration_errors (account : Account) : list LogRecord :=
  match unread_failure account with
  | Some e => [iteration_error e]
  | None => []
  end.

Definition bulk_update_errors (account : Account) : list LogRecord :=
  match unread account with
  | [] => []
  | _ :: _ =>
      match bulk_update_failure account (map pending_item (unread account)) with
      | Some e => [bulk_update_error (Z.of_nat (length (unread account))) e]
      | None => []
      end
  end.

(** ** The proxy adapter *)

Section ProxyAdapter.
(** The values keyword arguments take, with Python's truth test. *)
Context {Value : Type} (truth : Value -> bool).

(** [UseProxyHttpAdapter.send]: the keyword arguments handed on to
    [HTTPAdapter.send], given the class attribute [_my_proxies] ([None]
    until [main] sets it) and the keyword arguments of the call.  The
    positional arguments are handed on as they are. *)
Definition send (my_proxies : option Value) (kwargs : gmap string Value)
    : gmap string Value :=
  match my_proxies with
  | Some proxies =>
      if truth proxies then <["proxies"%string := proxies]> kwargs else kwargs
  | None => kwargs
  end.

(** The [if proxies:] statement of [main], on the pair of the class
    attribute [_my_proxies] and of whether [UseProxyHttpAdapter] is the
    adapter class of the provider protocol.  [proxies] is
    [owaconfig.get('proxies')]. *)
Definition install_proxies (proxies : option Value)
    (class_state : option Value * bool) : option Value * bool :=
  match proxies with
  | Some p => if truth p then (Some p, true) else class_state
  | None => class_state
  end.
End ProxyAdapter.

(** ** The sleep interval *)

(** The exceptions of the built-in [int]. *)
Inductive IntError := ValueError | TypeError | OverflowError.

(** A value of the loaded configuration, as far as [int] tells values
    apart. *)
Inductive ConfigValue (Float : Type) :=
| ConfigNone
| ConfigBool (b : bool)
| ConfigInt (n : Z)
| ConfigFloat (f : Float)
| ConfigStr (s : str)
| ConfigList
| ConfigDict.
Arguments ConfigNone {Float}.
Arguments ConfigBool {Float} b.
Arguments ConfigInt {Float} n.
Arguments ConfigFloat {Float} f.
Arguments ConfigStr {Float} s.
Arguments ConfigList {Float}.
Arguments ConfigDict {Float}.

Section SleepInterval.
(** The conversions of floating-point numbers and of text are those of
    the interpreter; [None] stands for the [ValueError] of a text that is
    no integer literal. *)
Context {Float : Type}.
Context (int_of_float : Float -> IntError + Z).
Context (int_of_str : str -> option Z).

(** The built-in [int] on a configuration value. *)
Definition int (v : ConfigValue Float) : IntError + Z :=
  match v with
  | ConfigNone | ConfigList | ConfigDict => inl TypeError
  | ConfigBool b => inr (if b then 1 else 0)
  | ConfigInt n => inr n
  | ConfigFloat f => int_of_float f
  | ConfigStr s =>
      match int_of_str s with
      | Some n => inr n
      | None => inl ValueError
      end
  end.

(** The [try] statement of [main] that computes [nap_time];
    [sleep_interval] is the entry of the configuration, [None] when the
    key is missing. *)
Definition nap_time (sleep_interval : option (ConfigValue Float)) : IntError + Z :=
  match int (default (ConfigInt 60) sleep_interval) with
  | inl ValueError => inr 60
  | r => r
  end.
End SleepInterval.

(** ** The scheduler loop *)

Section Scheduler.
(** Clock readings are floating-point numbers: their type and their
    difference are parameters, as are the successive readings of
    [time.time()] and what the account does in each cycle. *)
Context {Time : Type}.
Context (elapsed : Time -> Time -> Time).
Context (time : nat -> Time).
Context (account_at : nat -> Account).

(** What the body of the loop does besides calling [poll]: the summary
    line it logs, the [uptime] gauge it sets and the sleep. *)
Inductive Step :=
| Summary (run_time : Time) (message_count nap_time : Z)
| Uptime (uptime : Time)
| Sleep (nap_time : Z).

Record Process := {
  world : World;       (* the world [poll] acts on *)
  readings : nat;      (* clock readings taken so far *)
  cycle : nat;         (* cycles completed so far *)
  steps : list Step    (* steps of the loop body so far *)
}.

(** [fuel] turns of the [while True] loop of [main].  The loop has no
    handler: an exception of [poll] ends it. *)
Fixpoint main_loop (fuel : nat) (boot_time : Time) (nap_time : Z)
    (iris_client : IrisClient) (p : Process) : Process * option exn :=
  match fuel with
  | O => (p, None)
  | S fuel' =>
      let start_time := time (readings p) in
      match poll (account_at (cycle p)) iris_client (world p) with
      | (w, Raise e) =>
          ({| world := w; readings := S (readings p); cycle := cycle p;
              steps := steps p |}, Some e)
      | (w, Return message_count) =>
          let now := time (S (readings p)) in
          let run_time := elapsed now start_time in
          main_loop fuel' boot_time nap_time iris_client
            {| world := w; readings := S (S (readings p)); cycle := S (cycle p);
               steps := steps p ++ [Summary run_time message_count nap_time;
                                    Uptime (elapsed now boot_time);
                                    Sleep nap_time] |}
      end
  end.
End Scheduler.

Arguments Summary {Time} run_time message_count nap_time.
Arguments Uptime {Time} uptime.
Arguments Sleep {Time} nap_time.

(** The sleeps among the steps, in order. *)
Definition sleeps {Time : Type} (l : list (@Step Time)) : list Z :=
  omap (fun s => match s with Sleep n => Some n | _ => None end) l.

(** The message counts of the summary lines, in order. *)
Definition counts {Time : Type} (l : list (@Step Time)) : list Z :=
  omap (fun s => match s with Summary _ n _ => Some n | _ => None end) l.

(** ** Sample inputs: the end-to-end scenario of the specification *)

(** A mailbox with the given address. *)
Definition address (s : string) : Mailbox := {| email_address := lit s |}.

Definition M3 : Message :=
  {| message_id := lit "<3@example.org>"; sender := Some (address "carol@example.org");
     to_recipients := Some [address "oncall@example.org"; address "team@example.org"];
     headers := Some [{| name := lit "Subject"; value := lit "Re: incident 42" |}];
     text_body := Some (lit "  claim 42  "); is_read := false |}.

Definition M2 : Message :=
  {| message_id := lit "<2@example.org>"; sender := Some (address "list@example.org");
     to_recipients := Some [address "oncall@example.org"];
     headers := Some [{| name := lit "Subject"; value := lit "Newsletter" |};
                      {| name := lit "Precedence"; value := lit "bulk" |}];
     text_body := Some (lit "weekly digest"); is_read := false |}.

Definition M1 : Message :=
  {| message_id := lit "<1@example.org>"; sender := Some (address "dave@example.org");
     to_recipients := None; headers := Some [];
     text_body := Some (lit "resolve 17"); is_read := false |}.

(** A message for which the provider returned no header list. *)
Definition M0 : Message :=
  {| message_id := lit "<0@example.org>"; sender := Some (address "erin@example.org");
     to_recipients := Some [address "oncall@example.org"]; headers := None;
     text_body := Some (lit "ack 7"); is_read := false |}.

(** A bulk message for which the provider returned no sender. *)
Definition M4 : Message :=
  {| message_id := lit "<4@example.org>"; sender := None;
     to_recipients := Some [address "oncall@example.org"];
     headers := Some [{| name := lit "Precedence"; value := lit "bulk" |}];
     text_body := Some (lit "digest"); is_read := false |}.

(** A message with an empty header list for which the provider returned no
    text body. *)
Definition M5 : Message :=
  {| message_id := lit "<5@example.org>"; sender := Some (address "frank@example.org");
     to_recipients := Some [address "oncall@example.org"]; headers := Some [];
     text_body := None; is_read := false |}.

(** A downstream API that answers every request with the given status. *)
Definition answering (status : Z) : IrisClient :=
  {| respond := fun _ _ => Return {| status_code := status |} |}.

(** A downstream API that cannot be reached. *)
Definition unreachable : IrisClient :=
  {| respond := fun _ _ => Raise (RequestException "ConnectionError") |}.

(** An account whose query yields [messages] and then raises [failure]. *)
Definition inbox (messages : list Message) (failure : option exn) : Account :=
  {| total_count := Return 10; unread_count := Return (Z.of_nat (length messages));
     unread := messages; unread_failure := failure;
     bulk_update_failure := fun _ => None |}.

(** * Properties *)

(** ** Stripping *)

Lemma lstrip_split (s : str) :
  exists l, s = l ++ lstrip s /\ forallb isspace l = true.
Proof.
  induction s as [|c s IH]; simpl.
  - exists []. done.
  - destruct (isspace c) eqn:Hc.
    + destruct IH as (l & Hs & Hl). exists (c :: l). simpl.
      rewrite Hc, Hl. split; [congruence | done].
    + exists []. done.
Qed.

Lemma lstrip_head (s : str) :
  match lstrip s with c :: _ => isspace c = false | [] => True end.
Proof.
  induction s as [|c s IH]; simpl; [done |].
  destruct (isspace c) eqn:Hc; [exact IH | exact Hc].
Qed.

Lemma rstrip_split (s : str) :
  exists r, s = rstrip s ++ r /\ forallb isspace r = true.
Proof.
  unfold rstrip. destruct (lstrip_split (rev s)) as (l & Hs & Hl).
  exists (rev l). split.
  - rewrite <- rev_app_distr, <- Hs. by rewrite rev_involutive.
  - rewrite forallb_forall in *. intros c Hc. apply Hl. by apply in_rev.
Qed.

Lemma rstrip_last (s : str) :
  match last (rstrip s) with Some c => isspace c = false | None => True end.
Proof.
  unfold rstrip. pose proof (lstrip_head (rev s)) as H.
  destruct (lstrip (rev s)) as [|c t]; simpl; [done |].
  by rewrite last_snoc.
Qed.

Lemma rstrip_head (s : str) :
  match s with c :: _ => isspace c = false | [] => True end ->
  match rstrip s with c :: _ => isspace c = false | [] => True end.
Proof.
  destruct s as [|c s]; [done |]. intros Hc.
  destruct (rstrip_split (c :: s)) as (r & Hs & Hr).
  destruct (rstrip (c :: s)) as [|c' t]; [done |].
  simpl in Hs. congruence.
Qed.

(** [strip] removes a run of white space at either end and nothing else,
    and what is left neither starts nor ends with white space. *)
Lemma strip_spec (s : str) :
  exists l r,
    s = l ++ strip s ++ r /\
    forallb isspace l = true /\ forallb isspace r = true /\
    match strip s with c :: _ => isspace c = false | [] => True end /\
    match last (strip s) with Some c => isspace c = false | None => True end.
Proof.
  unfold strip.
  destruct (lstrip_split s) as (l & Hl & Hls).
  destruct (rstrip_split (lstrip s)) as (r & Hr & Hrs).
  exists l, r. split; [| split; [done | split; [done | split]]].
  - by rewrite <- Hr.
  - apply rstrip_head, lstrip_head.
  - apply rstrip_last.
Qed.

(** ** Running the monad *)

Ltac run :=
  unfold try_except, raise_for_status, post, attribute, raise, deliver, bulk_update,
    metrics_incr, metrics_set, update_metrics,
    logger_info, logger_warning, logger_exception, emit,
    mbind, Py_bind, mret, Py_ret in *;
  cbn [fst snd metrics log posted bulk_updates] in *.

Lemma counter_bumped_eq key w w' :
  metrics w' = bumped key (metrics w) -> counter key w' = counter key w + 1.
Proof. unfold counter, bumped. intros ->. by rewrite lookup_insert_eq. Qed.

Lemma lookup_bumped_ne key key' w w' :
  metrics w' = bumped key (metrics w) -> key <> key' ->
  metrics w' !! key' = metrics w !! key'.
Proof. unfold bumped. intros -> Hne. by rewrite lookup_insert_ne. Qed.

Lemma counter_bumped_ne key key' w w' :
  metrics w' = bumped key (metrics w) -> key <> key' ->
  counter key' w' = counter key' w.
Proof. intros H Hne. unfold counter. by rewrite (lookup_bumped_ne _ _ _ _ H Hne). Qed.

(** ** The classifier *)

(** The classifier answers [matches_among] and touches nothing but the log. *)
Lemma is_pointless_message_among_run rules headers w :
  exists w',
    is_pointless_message_among rules headers w = (w', Return (matches_among rules headers)) /\
    metrics w' = metrics w /\ posted w' = posted w /\ bulk_updates w' = bulk_updates w.
Proof.
  induction rules as [|rule rules IH]; simpl.
  - exists w. done.
  - fold (rule_header rule). destruct (header_in (rule_header rule) headers); simpl.
    + run. eexists. done.
    + exact IH.
Qed.

Lemma is_pointless_message_run headers w :
  exists w',
    is_pointless_message headers w = (w', Return (matches headers)) /\
    metrics w' = metrics w /\ posted w' = posted w /\ bulk_updates w' = bulk_updates w.
Proof. apply is_pointless_message_among_run. Qed.

(** The order in which the frozenset is traversed does not change the
    answer. *)
Lemma matches_among_Permutation rules rules' headers :
  Permutation rules rules' -> matches_among rules headers = matches_among rules' headers.
Proof.
  unfold matches_among. induction 1; simpl; try congruence.
  by rewrite !orb_assoc, (orb_comm (header_in _ _)).
Qed.

Lemma is_pointless_message_any_order rules headers w :
  Permutation rules email_headers_to_ignore ->
  (is_pointless_message_among rules headers w).2 = (is_pointless_message headers w).2.
Proof.
  intros Hperm.
  destruct (is_pointless_message_among_run rules headers w) as (w1 & -> & _).
  destruct (is_pointless_message_run headers w) as (w2 & -> & _).
  simpl. f_equal. by apply matches_among_Permutation.
Qed.

(** (C1) [is_pointless_message] returns [True] exactly when the header list
    contains, as an element, one of the pairs [('X-Autoreply', 'yes')],
    [('Auto-Submitted', 'auto-replied')], [('Precedence', 'bulk')], and
    [False] when it contains none of them. *)
Theorem is_pointless_message_correct (headers : list Header) (w : World) :
  (is_pointless_message headers w).2 =
  Return (bool_decide
    ({| hname := lit "X-Autoreply"; hvalue := lit "yes" |} ∈ headers \/
     {| hname := lit "Auto-Submitted"; hvalue := lit "auto-replied" |} ∈ headers \/
     {| hname := lit "Precedence"; hvalue := lit "bulk" |} ∈ headers)).
Proof.
  destruct (is_pointless_message_run headers w) as (w' & -> & _).
  simpl. f_equal. unfold matches, matches_among, email_headers_to_ignore, header_in.
  cbn [existsb rule_header fst snd].
  rewrite orb_false_r.
  repeat case_bool_decide; simpl; tauto.
Qed.

(** The match is on the exact pair: another spelling of the name, or the
    value under another name, is no match. *)
Example is_pointless_message_exact :
  (is_pointless_message [{| hname := lit "precedence"; hvalue := lit "bulk" |};
                         {| hname := lit "X-Autoreply"; hvalue := lit "bulk" |}]
     initial_world).2 = Return false /\
  (is_pointless_message [{| hname := lit "Subject"; hvalue := lit "hello" |};
                         {| hname := lit "Auto-Submitted"; hvalue := lit "auto-replied" |}]
     initial_world).2 = Return true.
Proof. split; vm_compute; reflexivity. Qed.

(** The loop stops at the first rule, in traversal order, that is in the
    header list. *)
Lemma is_pointless_message_among_exact rules headers w :
  is_pointless_message_among rules headers w =
  match List.find (fun rule => header_in (rule_header rule) headers) rules with
  | Some rule => (logged (rule_warning rule) w, Return true)
  | None => (w, Return false)
  end.
Proof.
  induction rules as [|rule rules IH]; simpl; [done |].
  fold (rule_header rule). destruct (header_in (rule_header rule) headers); [done |].
  exact IH.
Qed.

(** Without a match the classifier leaves the world as it is. *)
Lemma is_pointless_message_silent headers w :
  matches headers = false -> is_pointless_message headers w = (w, Return false).
Proof.
  intros Hm. unfold is_pointless_message. rewrite is_pointless_message_among_exact.
  destruct (List.find _ _) as [rule|] eqn:Hfind; [| done].
  apply find_some in Hfind. destruct Hfind as [Hin Hrule].
  unfold matches, matches_among in Hm.
  assert (existsb (fun rule => header_in (rule_header rule) headers)
            email_headers_to_ignore = true) by (apply existsb_exists; eauto).
  congruence.
Qed.

Lemma matches_among_find rules headers :
  matches_among rules headers =
  match List.find (fun rule => header_in (rule_header rule) headers) rules with
  | Some _ => true
  | None => false
  end.
Proof.
  unfold matches_among. induction rules as [|rule rules IH]; simpl; [done |].
  by destruct (header_in (rule_header rule) headers).
Qed.

Lemma errors_app l1 l2 : errors (l1 ++ l2) = errors l1 ++ errors l2.
Proof. unfold errors. apply List.filter_app. Qed.

(** What the classifier does to the world: nothing but, on a match, one
    warning. *)
Lemma is_pointless_message_world headers w :
  exists w',
    is_pointless_message headers w = (w', Return (matches headers)) /\
    metrics w' = metrics w /\ posted w' = posted w /\
    bulk_updates w' = bulk_updates w /\ errors (log w') = errors (log w) /\
    (matches headers = false -> w' = w).
Proof.
  unfold is_pointless_message, matches.
  rewrite is_pointless_message_among_exact, matches_among_find.
  destruct (List.find _ _) as [rule|]; eexists; (split; [reflexivity |]); simpl.
  - rewrite errors_app. simpl. rewrite app_nil_r. done.
  - done.
Qed.

(** ** One call of [relay] *)

(** Every path through [relay]. *)
Lemma relay_run message iris_client w :
  bulk_updates (relay message iris_client w).1 = bulk_updates w /\
  match sender message with
  | None => relay_aborts w (relay message iris_client w).1 (relay message iris_client w).2
  | Some from =>
      if ignorable message
      then relay_ignores w (relay message iris_client w).1 (relay message iris_client w).2
      else
        match headers message, text_body message with
        | Some hs, Some body =>
            relay_posts iris_client message from (relay_request message hs from body) w
              (relay message iris_client w).1 (relay message iris_client w).2
        | _, _ =>
            relay_aborts w (relay message iris_client w).1 (relay message iris_client w).2
        end
  end.
Proof.
  destruct (relay message iris_client w) as [w' r] eqn:Hrelay.
  cbn [fst snd]. unfold relay, ignorable in *.
  destruct (headers message) as [hs|].
  - destruct (is_pointless_message_world (map header_dict hs) w)
      as (w1 & Hrun & Hm & Hp & Hb & He & Hsame).
    unfold mbind at 1, Py_bind at 1 in Hrelay. rewrite Hrun in Hrelay.
    destruct (matches (map header_dict hs)).
    + destruct (sender message) as [from|]; run; injection Hrelay as <- <-.
      * unfold relay_ignores, bumped. simpl. rewrite Hm, Hp, Hb.
        rewrite errors_app, He. simpl. by rewrite app_nil_r.
      * unfold relay_aborts, AttributeError. done.
    + rewrite (Hsame eq_refl) in Hrelay. clear w1 Hrun Hm Hp Hb He Hsame.
      destruct (sender message) as [from|];
        [| run; injection Hrelay as <- <-; unfold relay_aborts; done].
      destruct (text_body message) as [body|];
        [| run; injection Hrelay as <- <-; unfold relay_aborts; done].
      unfold relay_posts, relay_request, outgoing_headers, bumped. run.
      destruct (respond iris_client _ _) as [response|e].
      * destruct ((400 <=? status_code response) && (status_code response <? 600));
          simpl in Hrelay; injection Hrelay as <- <-; done.
      * destruct (is_RequestException e);
          simpl in Hrelay; injection Hrelay as <- <-; done.
  - destruct (sender message) as [from|]; run; injection Hrelay as <- <-.
    + unfold relay_ignores, bumped. simpl. rewrite errors_app. simpl.
      by rewrite app_nil_r.
    + unfold relay_aborts. done.
Qed.

Lemma is_pointless_message_result headers w :
  (is_pointless_message headers w).2 = Return (matches headers).
Proof. by destruct (is_pointless_message_run headers w) as (w' & -> & _). Qed.

Lemma accepted_no_match hs w :
  (is_pointless_message (map header_dict hs) w).2 = Return false ->
  matches (map header_dict hs) = false.
Proof. rewrite is_pointless_message_result. congruence. Qed.

Lemma pointless_match hs w :
  (is_pointless_message (map header_dict hs) w).2 = Return true ->
  matches (map header_dict hs) = true.
Proof. rewrite is_pointless_message_result. congruence. Qed.

(** A message with a sender, a text body and a header list that matches no
    rule: the request goes out. *)
Lemma relay_accepted message iris_client w hs from body :
  headers message = Some hs ->
  matches (map header_dict hs) = false ->
  sender message = Some from ->
  text_body message = Some body ->
  relay_posts iris_client message from (relay_request message hs from body) w
    (relay message iris_client w).1 (relay message iris_client w).2.
Proof.
  intros Hh Hm Hs Ht. destruct (relay_run message iris_client w) as [_ H].
  unfold ignorable in H. by rewrite Hs, Hh, Hm, Ht in H.
Qed.

(** A message with a sender and without headers to relay: it is ignored. *)
Lemma relay_ignored message iris_client w from :
  sender message = Some from ->
  ignorable message = true ->
  relay_ignores w (relay message iris_client w).1 (relay message iris_client w).2.
Proof.
  intros Hs Hi. destruct (relay_run message iris_client w) as [_ H].
  by rewrite Hs, Hi in H.
Qed.

Lemma relay_pointless message iris_client w hs from :
  headers message = Some hs ->
  matches (map header_dict hs) = true ->
  sender message = Some from ->
  relay_ignores w (relay message iris_client w).1 (relay message iris_client w).2.
Proof.
  intros Hh Hm Hs. apply (relay_ignored _ _ _ from Hs). unfold ignorable. by rewrite Hh.
Qed.

(** A message that lacks a field [relay] reads: the call raises. *)
Lemma relay_unreadable message iris_client w :
  readable message = false ->
  relay_aborts w (relay message iris_client w).1 (relay message iris_client w).2.
Proof.
  intros Hr. destruct (relay_run message iris_client w) as [_ H].
  unfold readable in Hr. destruct (sender message) as [from|]; [| done].
  destruct (ignorable message) eqn:Hi; [done |]. simpl in Hr.
  destruct (headers message) as [hs|]; [| done].
  destruct (text_body message) as [body|]; [| done].
  apply bool_decide_eq_false in Hr. exfalso. apply Hr. by eexists.
Qed.

(** The three ways a call of [relay] goes. *)
Lemma relay_cases message iris_client w :
  relay_ignores w (relay message iris_client w).1 (relay message iris_client w).2 \/
  relay_aborts w (relay message iris_client w).1 (relay message iris_client w).2 \/
  exists hs from body,
    headers message = Some hs /\ matches (map header_dict hs) = false /\
    sender message = Some from /\ text_body message = Some body /\
    relay_posts iris_client message from (relay_request message hs from body) w
      (relay message iris_client w).1 (relay message iris_client w).2.
Proof.
  destruct (relay_run message iris_client w) as [_ H]. unfold ignorable in H.
  destruct (sender message) as [from|]; [| by right; left].
  destruct (headers message) as [hs|]; [| by left].
  destruct (matches (map header_dict hs)) eqn:Hm; [by left |].
  destruct (text_body message) as [body|]; [| by right; left].
  right. right. by exists hs, from, body.
Qed.

(** A call of [relay] leaves the metrics alone or adds one to one of its
    three counters. *)
Lemma relay_metrics message iris_client w :
  metrics (relay message iris_client w).1 = metrics w \/
  exists key, key ∈ relay_counters /\
    metrics (relay message iris_client w).1 = bumped key (metrics w).
Proof.
  destruct (relay_cases message iris_client w)
    as [(_ & _ & Hm & _) | [(_ & _ & Hm & _) | (hs & from & body & _ & _ & _ & _ & _ & H)]].
  - right. eexists. split; [| exact Hm]. unfold relay_counters.
    apply list_elem_of_In. simpl. auto.
  - by left.
  - destruct (respond iris_client _ _) as [response|e].
    + destruct ((400 <=? status_code response) && (status_code response <? 600));
        destruct H as (_ & Hm & _); right; (eexists; split; [| exact Hm]);
        unfold relay_counters; apply list_elem_of_In; simpl; auto.
    + destruct (is_RequestException e); destruct H as (_ & Hm & _); [| by left].
      right. eexists. split; [| exact Hm]. unfold relay_counters.
      apply list_elem_of_In. simpl. auto.
Qed.

Lemma header_in_snoc d hs h :
  hname d <> hname h -> header_in d (hs ++ [h]) = header_in d hs.
Proof.
  intros Hne. unfold header_in. apply bool_decide_ext.
  rewrite elem_of_app, list_elem_of_singleton. split; [| by left].
  intros [H | ->]; [exact H | done].
Qed.

Lemma matches_among_snoc rules hs h :
  Forall (fun rule => rule.1 <> hname h) rules ->
  matches_among rules (hs ++ [h]) = matches_among rules hs.
Proof.
  unfold matches_among. induction 1 as [|rule rules Hne _ IH]; simpl; [done |].
  by rewrite IH, header_in_snoc.
Qed.

(** The synthetic headers are no rule pair: appending them changes no
    classification. *)
Lemma matches_outgoing_headers message from hs :
  matches (outgoing_headers message from hs) = matches hs.
Proof.
  unfold matches, outgoing_headers, with_recipient.
  rewrite matches_among_snoc by (repeat constructor; simpl; discriminate).
  destruct (first_recipient message) as [recipient|]; [| done].
  by rewrite matches_among_snoc by (repeat constructor; simpl; discriminate).
Qed.

(** ** The relayer *)

(** (C2) For an accepted message (headers present, classifier answers
    [False]) with its sender and its text body, [relay] posts one payload:
    its header list is the original headers, then a [To] header with the
    first recipient's address when there is a recipient, then a [From]
    header with the sender's address; its body is the text body without
    the white space at either end. *)
Theorem relay_payload message iris_client w hs from body :
  headers message = Some hs ->
  (is_pointless_message (map header_dict hs) w).2 = Return false ->
  sender message = Some from ->
  text_body message = Some body ->
  exists payload l r,
    posted (relay message iris_client w).1 =
      posted w ++ [{| path := "response/email"; json := payload |}] /\
    payload_headers payload =
      map header_dict hs ++
      match to_recipients message with
      | Some (recipient :: _) =>
          [{| hname := lit "To"; hvalue := email_address recipient |}]
      | _ => []
      end ++
      [{| hname := lit "From"; hvalue := email_address from |}] /\
    payload_body payload = strip body /\
    body = l ++ payload_body payload ++ r /\
    forallb isspace l = true /\ forallb isspace r = true /\
    match payload_body payload with c :: _ => isspace c = false | [] => True end /\
    match last (payload_body payload) with Some c => isspace c = false | None => True end.
Proof.
  intros Hh Hacc Hs Ht. apply accepted_no_match in Hacc.
  destruct (relay_accepted message iris_client w hs from body Hh Hacc Hs Ht)
    as [Hposted _].
  destruct (strip_spec body) as (l & r & Hb & Hl & Hr & Hhead & Hlast).
  exists (json (relay_request message hs from body)), l, r.
  split; [exact Hposted |]. split; [| done].
  simpl. unfold outgoing_headers, with_recipient, first_recipient.
  destruct (to_recipients message) as [[|recipient rest]|]; simpl;
    by rewrite <- ?app_assoc.
Qed.

Lemma relay_payload_witness :
  exists payload,
    posted (relay M3 (answering 200) initial_world).1 =
      [{| path := "response/email"; json := payload |}] /\
    payload_headers payload =
      [{| hname := lit "Subject"; hvalue := lit "Re: incident 42" |};
       {| hname := lit "To"; hvalue := lit "oncall@example.org" |};
       {| hname := lit "From"; hvalue := lit "carol@example.org" |}] /\
    payload_body payload = lit "claim 42".
Proof.
  destruct (relay_payload M3 (answering 200) initial_world
              [{| name := lit "Subject"; value := lit "Re: incident 42" |}]
              (address "carol@example.org") (lit "  claim 42  "))
    as (payload & l & r & Hposted & Hheaders & Hbody & _);
    [reflexivity | vm_compute; reflexivity | reflexivity | reflexivity |].
  exists payload. split; [exact Hposted | split; [exact Hheaders | exact Hbody]].
Defined.

(** (C3, counterexample) A bulk message for which the provider returned no
    sender: the classifier answers [True], yet [relay] raises when it reads
    the sender's address for its log line, before the ignore counter is
    touched. *)
Lemma relay_pointless_without_sender :
  headers M4 = Some [{| name := lit "Precedence"; value := lit "bulk" |}] /\
  (is_pointless_message
     (map header_dict [{| name := lit "Precedence"; value := lit "bulk" |}])
     initial_world).2 = Return true /\
  (relay M4 (answering 200) initial_world).2 = Raise AttributeError /\
  counter "message_ignore_count" (relay M4 (answering 200) initial_world).1 = 0.
Proof. repeat split; vm_compute; reflexivity. Qed.

(** (C3, amended) For a message whose original headers match an ignore
    rule, nothing is posted.  When the message has a sender it is ignored
    and the ignore counter goes up by one; when it has none, [relay] raises
    on reading the sender's address and the counter stays as it was.  The
    decision rests on the original headers alone: whatever sender and
    recipients a message with these headers has, nothing is posted and,
    given a sender, it is ignored; a message whose original headers match
    no rule is never ignored; and the list with the synthetic headers
    appended is classified the way the original list is. *)
Theorem relay_ignores_pointless message iris_client w hs :
  headers message = Some hs ->
  (is_pointless_message (map header_dict hs) w).2 = Return true ->
  posted (relay message iris_client w).1 = posted w /\
  match sender message with
  | Some _ =>
      (relay message iris_client w).2 = Return Ignored /\
      counter "message_ignore_count" (relay message iris_client w).1 =
        counter "message_ignore_count" w + 1
  | None =>
      (relay message iris_client w).2 = Raise AttributeError /\
      counter "message_ignore_count" (relay message iris_client w).1 =
        counter "message_ignore_count" w
  end /\
  (forall other, headers other = Some hs ->
     posted (relay other iris_client w).1 = posted w /\
     (is_Some (sender other) -> (relay other iris_client w).2 = Return Ignored)) /\
  (forall other hs', headers other = Some hs' ->
     (is_pointless_message (map header_dict hs') w).2 = Return false ->
     (relay other iris_client w).2 <> Return Ignored) /\
  (forall other from hs', headers other = Some hs' ->
     (is_pointless_message
        (outgoing_headers other from (map header_dict hs')) w).2 =
     (is_pointless_message (map header_dict hs') w).2).
Proof.
  intros Hh Hp. apply pointless_match in Hp.
  assert (Hmatch : forall other, headers other = Some hs ->
            posted (relay other iris_client w).1 = posted w /\
            match sender other with
            | Some _ =>
                (relay other iris_client w).2 = Return Ignored /\
                counter "message_ignore_count" (relay other iris_client w).1 =
                  counter "message_ignore_count" w + 1
            | None =>
                (relay other iris_client w).2 = Raise AttributeError /\
                counter "message_ignore_count" (relay other iris_client w).1 =
                  counter "message_ignore_count" w
            end).
  { intros other Hh'. destruct (relay_run other iris_client w) as [_ H].
    unfold ignorable in H. rewrite Hh', Hp in H.
    destruct (sender other) as [from|].
    - destruct H as (Hr & Hposted & Hm & _).
      split; [exact Hposted |]. split; [exact Hr | by apply counter_bumped_eq].
    - destruct H as (Hr & Hposted & Hm & _).
      split; [exact Hposted |]. split; [exact Hr | unfold counter; by rewrite Hm]. }
  destruct (Hmatch message Hh) as [Hposted Hsender].
  split; [exact Hposted |]. split; [exact Hsender |]. split; [| split].
  - intros other Hh'. destruct (Hmatch other Hh') as [Hposted' Hsender'].
    split; [exact Hposted' |]. intros [from Hs]. rewrite Hs in Hsender'.
    by destruct Hsender'.
  - intros other hs' Hh' Hacc. apply accepted_no_match in Hacc.
    destruct (relay_run other iris_client w) as [_ H]. unfold ignorable in H.
    rewrite Hh', Hacc in H. destruct (sender other) as [from0|].
    + destruct (text_body other) as [body0|].
      * destruct H as [_ H]. destruct (respond iris_client _ _) as [response|e].
        -- destruct ((400 <=? status_code response) && (status_code response <? 600));
             destruct H as [-> _]; discriminate.
        -- destruct (is_RequestException e); destruct H as [-> _]; discriminate.
      * destruct H as [-> _]. discriminate.
    + destruct H as [-> _]. discriminate.
  - intros other from hs' _. rewrite !is_pointless_message_result.
    by rewrite matches_outgoing_headers.
Qed.

Lemma relay_ignores_pointless_witness :
  (relay M2 (answering 200) initial_world).2 = Return Ignored /\
  counter "message_ignore_count" (relay M2 (answering 200) initial_world).1 = 1 /\
  posted (relay M2 (answering 200) initial_world).1 = [].
Proof.
  destruct (relay_ignores_pointless M2 (answering 200) initial_world
              [{| name := lit "Subject"; value := lit "Newsletter" |};
               {| name := lit "Precedence"; value := lit "bulk" |}])
    as (Hp & (Hr & Hc) & _); [reflexivity | vm_compute; reflexivity |].
  split; [exact Hr | split; [exact Hc | exact Hp]].
Defined.

(** (C4, counterexample) A status code outside the 2xx range that
    [raise_for_status] lets through: the message counts as relayed. *)
Lemma relay_not_modified_is_sent :
  ~ (200 <= 304 < 300) /\
  (relay M1 (answering 304) initial_world).2 = Return Sent /\
  counter "message_relay_success_count" (relay M1 (answering 304) initial_world).1 = 1 /\
  counter "message_relay_failure_count" (relay M1 (answering 304) initial_world).1 = 0.
Proof. split; [lia | vm_compute; done]. Qed.

(** (C4, amended) For an accepted message on which the POST is attempted,
    that is, whose sender and text body are there to build the payload,
    [relay] issues exactly one POST.  A response with a status outside
    400..599, so every 2xx response, yields [Sent] and adds one to
    [message_relay_success_count] and nothing to
    [message_relay_failure_count]; a response with a status in 400..599, or
    a request exception raised by the POST, yields [Failed] and adds one to
    [message_relay_failure_count] and nothing to
    [message_relay_success_count]. *)
Theorem relay_counts_the_answer message iris_client w hs from body :
  headers message = Some hs ->
  (is_pointless_message (map header_dict hs) w).2 = Return false ->
  sender message = Some from ->
  text_body message = Some body ->
  let request :=
    {| path := "response/email";
       json := {| payload_headers :=
                    outgoing_headers message (email_address from) (map header_dict hs);
                  payload_body := strip body |} |} in
  let w' := (relay message iris_client w).1 in
  let sent :=
    (relay message iris_client w).2 = Return Sent /\
    counter "message_relay_success_count" w' = counter "message_relay_success_count" w + 1 /\
    counter "message_relay_failure_count" w' = counter "message_relay_failure_count" w in
  let failed :=
    (relay message iris_client w).2 = Return Failed /\
    counter "message_relay_failure_count" w' = counter "message_relay_failure_count" w + 1 /\
    counter "message_relay_success_count" w' = counter "message_relay_success_count" w in
  posted w' = posted w ++ [request] /\
  (forall response, respond iris_client (posted w) request = Return response ->
     200 <= status_code response < 300 -> sent) /\
  (forall response, respond iris_client (posted w) request = Return response ->
     ~ (400 <= status_code response < 600) -> sent) /\
  (forall response, respond iris_client (posted w) request = Return response ->
     400 <= status_code response < 600 -> failed) /\
  (forall e, respond iris_client (posted w) request = Raise e ->
     is_RequestException e = true -> failed).
Proof.
  intros Hh Hacc Hs Ht request w' sent failed. apply accepted_no_match in Hacc.
  pose proof (relay_accepted message iris_client w hs from body Hh Hacc Hs Ht) as Hrun.
  change (relay_request message hs from body) with request in Hrun.
  destruct Hrun as [Hposted H]. fold w' in Hposted, H.
  assert (Hsent : forall response,
             respond iris_client (posted w) request = Return response ->
             ~ (400 <= status_code response < 600) -> sent).
  { intros response Hresp Hstatus. rewrite Hresp in H.
    destruct ((400 <=? status_code response) && (status_code response <? 600)) eqn:Hb;
      [exfalso; apply Hstatus; lia |].
    destruct H as (Hr & Hm & _). split; [exact Hr | split].
    - by apply counter_bumped_eq.
    - by apply (counter_bumped_ne _ _ _ _ Hm). }
  assert (Hfailed : metrics w' = bumped "message_relay_failure_count" (metrics w) ->
             (relay message iris_client w).2 = Return Failed -> failed).
  { intros Hm Hr. split; [exact Hr | split].
    - by apply counter_bumped_eq.
    - by apply (counter_bumped_ne _ _ _ _ Hm). }
  split; [exact Hposted |]. split; [| split; [exact Hsent | split]].
  - intros response Hresp Hstatus. apply (Hsent response Hresp). lia.
  - intros response Hresp Hstatus. rewrite Hresp in H.
    destruct ((400 <=? status_code response) && (status_code response <? 600)) eqn:Hb;
      [| lia].
    destruct H as (Hr & Hm & _). by apply Hfailed.
  - intros e Hresp He. rewrite Hresp, He in H.
    destruct H as (Hr & Hm & _). by apply Hfailed.
Qed.

Lemma relay_counts_the_answer_witness :
  (relay M1 (answering 200) initial_world).2 = Return Sent /\
  (relay M1 (answering 500) initial_world).2 = Return Failed /\
  (relay M1 unreachable initial_world).2 = Return Failed.
Proof.
  assert (Hh : headers M1 = Some []) by reflexivity.
  assert (Hacc : (is_pointless_message (map header_dict []) initial_world).2 = Return false)
    by (vm_compute; reflexivity).
  assert (Hs : sender M1 = Some (address "dave@example.org")) by reflexivity.
  assert (Ht : text_body M1 = Some (lit "resolve 17")) by reflexivity.
  split; [| split].
  - destruct (relay_counts_the_answer M1 (answering 200) initial_world [] _ _ Hh Hacc Hs Ht)
      as (_ & H & _).
    apply (H {| status_code := 200 |}); [reflexivity | simpl; lia].
  - destruct (relay_counts_the_answer M1 (answering 500) initial_world [] _ _ Hh Hacc Hs Ht)
      as (_ & _ & _ & H & _).
    apply (H {| status_code := 500 |}); [reflexivity | simpl; lia].
  - destruct (relay_counts_the_answer M1 unreachable initial_world [] _ _ Hh Hacc Hs Ht)
      as (_ & _ & _ & _ & H).
    apply (H (RequestException "ConnectionError")); reflexivity.
Defined.

(** (C9, counterexample) A message with an empty header list for which the
    provider returned no text body: the classifier answers [False], and
    [relay] raises when it strips the body, before any POST. *)
Lemma relay_empty_headers_without_body :
  headers M5 = Some [] /\
  (relay M5 (answering 200) initial_world).2 = Raise AttributeError /\
  posted (relay M5 (answering 200) initial_world).1 = [].
Proof. repeat split; vm_compute; reflexivity. Qed.

(** (C9, amended) A message whose header list is present but empty is not
    ignored: the classifier answers [False] on the empty list and the
    ignore counter stays as it was.  When the message has a sender and a
    text body, one POST goes out whose header list is the synthetic [To]
    header, when there is a recipient, and the synthetic [From] header;
    when either is missing, [relay] raises on reading it and nothing is
    posted. *)
Theorem relay_empty_headers message iris_client w :
  headers message = Some [] ->
  (is_pointless_message [] w).2 = Return false /\
  (relay message iris_client w).2 <> Return Ignored /\
  counter "message_ignore_count" (relay message iris_client w).1 =
    counter "message_ignore_count" w /\
  match sender message, text_body message with
  | Some from, Some body =>
      posted (relay message iris_client w).1 =
        posted w ++
        [{| path := "response/email";
            json :=
              {| payload_headers :=
                   match to_recipients message with
                   | Some (recipient :: _) =>
                       [{| hname := lit "To"; hvalue := email_address recipient |};
                        {| hname := lit "From"; hvalue := email_address from |}]
                   | _ => [{| hname := lit "From"; hvalue := email_address from |}]
                   end;
                 payload_body := strip body |} |}]
  | _, _ =>
      posted (relay message iris_client w).1 = posted w /\
      (relay message iris_client w).2 = Raise AttributeError
  end.
Proof.
  intros Hh. split; [by rewrite is_pointless_message_result |].
  assert (Haborts : relay_aborts w (relay message iris_client w).1
                      (relay message iris_client w).2 ->
            (relay message iris_client w).2 <> Return Ignored /\
            counter "message_ignore_count" (relay message iris_client w).1 =
              counter "message_ignore_count" w /\
            posted (relay message iris_client w).1 = posted w /\
            (relay message iris_client w).2 = Raise AttributeError).
  { intros (Hr & Hp & Hm & _). rewrite Hr. split; [discriminate |].
    split; [unfold counter; by rewrite Hm | done]. }
  destruct (relay_run message iris_client w) as [_ H]. unfold ignorable in H.
  rewrite Hh in H. change (matches (map header_dict [])) with false in H.
  destruct (sender message) as [from|];
    [| destruct (Haborts H) as (? & ? & ? & ?); destruct (text_body message); done].
  destruct (text_body message) as [body|];
    [| destruct (Haborts H) as (? & ? & ? & ?); done].
  destruct H as [Hposted H]. split; [| split].
  - destruct (respond iris_client _ _) as [response|e].
    + destruct ((400 <=? status_code response) && (status_code response <? 600));
        destruct H as [-> _]; discriminate.
    + destruct (is_RequestException e); destruct H as [-> _]; discriminate.
  - destruct (respond iris_client _ _) as [response|e].
    + destruct ((400 <=? status_code response) && (status_code response <? 600));
        destruct H as (_ & Hm & _); by apply (counter_bumped_ne _ _ _ _ Hm).
    + destruct (is_RequestException e); destruct H as (_ & Hm & _);
        [by apply (counter_bumped_ne _ _ _ _ Hm) | unfold counter; by rewrite Hm].
  - rewrite Hposted. unfold relay_request, outgoing_headers, with_recipient, first_recipient.
    simpl. by destruct (to_recipients message) as [[|recipient rest]|].
Qed.

Lemma relay_empty_headers_witness :
  (relay M1 (answering 200) initial_world).2 <> Return Ignored /\
  posted (relay M1 (answering 200) initial_world).1 =
    [{| path := "response/email";
        json := {| payload_headers :=
                     [{| hname := lit "From"; hvalue := lit "dave@example.org" |}];
                   payload_body := lit "resolve 17" |} |}].
Proof.
  destruct (relay_empty_headers M1 (answering 200) initial_world)
    as (_ & Hr & _ & Hp); [reflexivity |].
  split; [exact Hr | exact Hp].
Defined.

(** (C10) A call of [relay] that completes adds one to exactly one of
    [message_ignore_count], [message_relay_success_count] and
    [message_relay_failure_count], the one of the path it took, and leaves
    the other two as they were. *)
Theorem relay_bumps_one_counter message iris_client w w' outcome :
  relay message iris_client w = (w', Return outcome) ->
  let added key := counter key w' - counter key w in
  (added "message_ignore_count",
   added "message_relay_success_count",
   added "message_relay_failure_count") =
  match outcome with
  | Ignored => (1, 0, 0)
  | Sent => (0, 1, 0)
  | Failed => (0, 0, 1)
  end.
Proof.
  intros Hrelay added.
  assert (Hone : forall key, metrics w' = bumped key (metrics w) ->
            forall key', added key' = if decide (key = key') then 1 else 0).
  { intros key Hm key'. unfold added. case_decide as Hk.
    - subst key'. rewrite (counter_bumped_eq _ _ _ Hm). lia.
    - rewrite (counter_bumped_ne _ _ _ _ Hm Hk). lia. }
  destruct (relay_cases message iris_client w)
    as [H | [H | (hs & from & body & _ & _ & _ & _ & _ & H)]];
    rewrite Hrelay in H; cbn [fst snd] in H.
  - destruct H as (Hr & _ & Hm & _). injection Hr as ->. by rewrite !(Hone _ Hm).
  - destruct H as (Hr & _). discriminate Hr.
  - destruct (respond iris_client _ _) as [response|e].
    + destruct ((400 <=? status_code response) && (status_code response <? 600));
        destruct H as (Hr & Hm & _); injection Hr as ->; by rewrite !(Hone _ Hm).
    + destruct (is_RequestException e); destruct H as (Hr & Hm & _); [| discriminate Hr].
      injection Hr as ->. by rewrite !(Hone _ Hm).
Qed.

Lemma relay_bumps_one_counter_witness :
  (counter "message_ignore_count" (relay M3 (answering 503) initial_world).1 - 0,
   counter "message_relay_success_count" (relay M3 (answering 503) initial_world).1 - 0,
   counter "message_relay_failure_count" (relay M3 (answering 503) initial_world).1 - 0) =
  (0, 0, 1).
Proof.
  apply (relay_bumps_one_counter M3 (answering 503) initial_world
           (relay M3 (answering 503) initial_world).1 Failed).
  vm_compute. reflexivity.
Defined.

(** ** [relay] against the client *)

(** With a client that fails with request errors only, [relay] returns for
    every message that has the fields it reads. *)
Lemma relay_returns message iris_client w :
  raises_only_RequestException iris_client ->
  readable message = true ->
  exists outcome, (relay message iris_client w).2 = Return outcome.
Proof.
  intros Hclient Hr. destruct (relay_run message iris_client w) as [_ H].
  unfold readable in Hr. destruct (sender message) as [from|]; [| done].
  destruct (ignorable message) eqn:Hi; [destruct H as [-> _]; by eexists |].
  simpl in Hr. apply bool_decide_eq_true in Hr. destruct Hr as [body Hb].
  rewrite Hb in H. unfold ignorable in Hi.
  destruct (headers message) as [hs|]; [| done].
  destruct H as [_ H].
  destruct (respond iris_client _ _) as [response|e] eqn:Hresp.
  - destruct ((400 <=? status_code response) && (status_code response <? 600));
      destruct H as [-> _]; by eexists.
  - rewrite (Hclient _ _ _ Hresp) in H. destruct H as [-> _]. by eexists.
Qed.

Lemma requests_of_cons message messages :
  requests_of (message :: messages) = requests_of [message] ++ requests_of messages.
Proof. unfold requests_of. simpl. by destruct (request_of message). Qed.

(** The requests a call of [relay] adds. *)
Lemma relay_posted message iris_client w :
  posted (relay message iris_client w).1 = posted w ++ requests_of [message].
Proof.
  destruct (relay_run message iris_client w) as [_ H].
  unfold requests_of, request_of, ignorable in *. cbn [omap list_omap].
  destruct (sender message) as [from|].
  - destruct (headers message) as [hs|].
    + destruct (matches (map header_dict hs)).
      * destruct (text_body message); destruct H as (_ & -> & _); by rewrite app_nil_r.
      * destruct (text_body message) as [body|].
        -- by destruct H as [-> _].
        -- destruct H as (_ & -> & _). by rewrite app_nil_r.
    + destruct H as (_ & -> & _). by rewrite app_nil_r.
  - destruct H as (_ & -> & _). destruct (headers message); by rewrite app_nil_r.
Qed.

(** The ERROR records a call of [relay] adds, and its failure counter. *)
Lemma relay_failures message iris_client w :
  errors (log (relay message iris_client w).1) =
    errors (log w) ++ relay_errors iris_client (posted w) message /\
  counter "message_relay_failure_count" (relay message iris_client w).1 =
    counter "message_relay_failure_count" w +
    Z.of_nat (length (relay_errors iris_client (posted w) message)).
Proof.
  assert (Hnone : forall w' r,
            (relay_ignores w w' r \/ relay_aborts w w' r) ->
            errors (log w') = errors (log w) ++ [] /\
            counter "message_relay_failure_count" w' =
              counter "message_relay_failure_count" w + Z.of_nat (length (@nil LogRecord))).
  { intros w' r [(_ & _ & Hm & He) | (_ & _ & Hm & He)]; rewrite app_nil_r; simpl.
    - split; [done |]. rewrite (counter_bumped_ne _ _ _ _ Hm) by done. lia.
    - split; [done |]. unfold counter. rewrite Hm. lia. }
  destruct (relay_run message iris_client w) as [_ H].
  unfold relay_errors, request_of, ignorable in *.
  destruct (sender message) as [from|];
    [| destruct (headers message) as [hs|]; apply (Hnone _ _ (or_intror H))].
  destruct (headers message) as [hs|]; [| apply (Hnone _ _ (or_introl H))].
  destruct (matches (map header_dict hs)).
  { destruct (text_body message); apply (Hnone _ _ (or_introl H)). }
  destruct (text_body message) as [body|]; [| apply (Hnone _ _ (or_intror H))].
  destruct H as [_ H].
  destruct (respond iris_client _ _) as [response|e].
  - destruct ((400 <=? status_code response) && (status_code response <? 600));
      destruct H as (_ & Hm & Hl); rewrite Hl.
    + rewrite errors_app. simpl. split; [done |]. by apply counter_bumped_eq.
    + rewrite app_nil_r. simpl. split; [done |].
      rewrite (counter_bumped_ne _ _ _ _ Hm) by done. lia.
  - destruct (is_RequestException e); destruct H as (_ & Hm & Hl); rewrite Hl.
    + rewrite errors_app. simpl. split; [done |]. by apply counter_bumped_eq.
    + rewrite app_nil_r. simpl. split; [done |]. unfold counter. rewrite Hm. lia.
Qed.

(** What [relay] returns and what it posts depend on the world through the
    requests posted so far only. *)
Lemma relay_posted_only message iris_client w1 w2 :
  posted w1 = posted w2 ->
  (relay message iris_client w1).2 = (relay message iris_client w2).2 /\
  posted (relay message iris_client w1).1 = posted (relay message iris_client w2).1.
Proof.
  intros Hp. split; [| by rewrite !relay_posted, Hp].
  destruct (relay_run message iris_client w1) as [_ H1].
  destruct (relay_run message iris_client w2) as [_ H2].
  destruct (sender message) as [from|];
    [| destruct H1 as [-> _], H2 as [-> _]; done].
  destruct (ignorable message); [destruct H1 as [-> _], H2 as [-> _]; done |].
  destruct (headers message) as [hs|];
    [| destruct H1 as [-> _], H2 as [-> _]; done].
  destruct (text_body message) as [body|];
    [| destruct H1 as [-> _], H2 as [-> _]; done].
  destruct H1 as [_ H1], H2 as [_ H2]. rewrite Hp in *.
  destruct (respond iris_client _ _) as [response|e].
  - destruct ((400 <=? status_code response) && (status_code response <? 600));
      destruct H1 as [-> _], H2 as [-> _]; done.
  - destruct (is_RequestException e); destruct H1 as [-> _], H2 as [-> _]; done.
Qed.

(** ** The metrics a step writes *)

(** Membership in, and inclusion between, lists of metric names. *)
Ltac list_mem := apply list_elem_of_In; simpl; auto 10.

Ltac not_mem := rewrite list_elem_of_In; simpl; intuition discriminate.

Ltac list_incl :=
  unfold metric_names, relay_counters;
  intros ?; rewrite !list_elem_of_In; simpl; intuition auto 10.

Lemma writes_only_refl keys w : writes_only keys w w.
Proof. intros key. done. Qed.

Lemma writes_only_same keys w w' : metrics w' = metrics w -> writes_only keys w w'.
Proof. intros H key. by rewrite H. Qed.

Lemma writes_only_trans keys w1 w2 w3 :
  writes_only keys w1 w2 -> writes_only keys w2 w3 -> writes_only keys w1 w3.
Proof.
  intros H12 H23 key. destruct (H12 key) as [Ha Hb], (H23 key) as [Hc Hd].
  split; [intros Hk; by rewrite Hc, Ha | auto].
Qed.

Lemma writes_only_weaken keys keys' w w' :
  keys ⊆ keys' -> writes_only keys w w' -> writes_only keys' w w'.
Proof.
  intros Hsub H key. destruct (H key) as [Ha Hb]. split; [| done].
  intros Hk. apply Ha. intros Hin. apply Hk, Hsub, Hin.
Qed.

Lemma writes_only_insert keys key v w w' :
  key ∈ keys -> metrics w' = <[key := v]> (metrics w) -> writes_only keys w w'.
Proof.
  intros Hin Hm key'. rewrite Hm. split.
  - intros Hk. apply lookup_insert_ne. by intros ->.
  - intros Hsome. destruct (decide (key = key')) as [->|Hne].
    + rewrite lookup_insert_eq. by eexists.
    + by rewrite lookup_insert_ne.
Qed.

(** [relay] writes its own three counters only. *)
Lemma relay_writes_only message iris_client w :
  writes_only relay_counters w (relay message iris_client w).1.
Proof.
  destruct (relay_metrics message iris_client w) as [Hm | (key & Hin & Hm)].
  - by apply writes_only_same.
  - by eapply writes_only_insert.
Qed.

(** ** The loop of [poll] *)

Lemma completed_cons_Return message outcome attempts :
  completed ((message, Return outcome) :: attempts) = message :: completed attempts.
Proof. reflexivity. Qed.

Lemma raised_cons_Return message outcome attempts :
  raised ((message, Return outcome) :: attempts) = raised attempts.
Proof. unfold raised. by destruct attempts. Qed.

Lemma relay_attempts_posted_only iris_client messages w1 w2 :
  posted w1 = posted w2 ->
  relay_attempts iris_client messages w1 = relay_attempts iris_client messages w2.
Proof.
  revert w1 w2. induction messages as [|message rest IH]; intros w1 w2 Hp; simpl; [done |].
  destruct (relay_posted_only message iris_client w1 w2 Hp) as [Hr Hp'].
  destruct (relay message iris_client w1) as [w1' r1],
           (relay message iris_client w2) as [w2' r2].
  simpl in Hr, Hp'. subst r2. destruct r1 as [outcome|e]; [| done].
  by rewrite (IH w1' w2' Hp').
Qed.

Lemma relay_attempts_prefix iris_client messages w :
  map fst (relay_attempts iris_client messages w) `prefix_of` messages.
Proof.
  revert w. induction messages as [|message rest IH]; intros w; simpl; [done |].
  destruct (relay message iris_client w) as [w' [outcome|e]]; simpl.
  - apply prefix_cons, IH.
  - apply prefix_cons, prefix_nil.
Qed.

(** With a client that fails with request errors only and messages that
    have the fields [relay] reads, every attempt completes. *)
Lemma relay_attempts_complete iris_client messages w :
  raises_only_RequestException iris_client ->
  forallb readable messages = true ->
  completed (relay_attempts iris_client messages w) = messages /\
  map fst (relay_attempts iris_client messages w) = messages /\
  length (relay_attempts iris_client messages w) = length messages /\
  raised (relay_attempts iris_client messages w) = None.
Proof.
  intros Hclient. revert w.
  induction messages as [|message rest IH]; intros w Hall; simpl; [done |].
  simpl in Hall. apply andb_prop in Hall. destruct Hall as [Hm Hrest].
  destruct (relay_returns message iris_client w Hclient Hm) as [outcome Hr].
  destruct (relay message iris_client w) as [w' r]. simpl in Hr. subst r.
  destruct (IH w' Hrest) as (Hc & Hf & Hl & Hraised).
  rewrite completed_cons_Return, raised_cons_Return, Hc, Hraised.
  cbn [length map fst]. by rewrite Hl, Hf.
Qed.

(** When every attempt completed, the loop reached every message and none
    raised. *)
Lemma completed_all iris_client messages w :
  completed (relay_attempts iris_client messages w) = messages ->
  map fst (relay_attempts iris_client messages w) = messages /\
  length (relay_attempts iris_client messages w) = length messages /\
  raised (relay_attempts iris_client messages w) = None.
Proof.
  revert w. induction messages as [|message rest IH]; intros w; simpl; [done |].
  destruct (relay message iris_client w) as [w' [outcome|e]]; [| discriminate].
  rewrite completed_cons_Return, raised_cons_Return. intros [= Hc].
  destruct (IH w' Hc) as (Hf & Hl & Hr). cbn [length map fst]. by rewrite Hf, Hl.
Qed.

(** The loop against its replay: the counter counts the attempts, the
    pending list gains the messages whose attempt completed, and the loop
    ends with the exception of the attempt that raised or, when none did,
    with what the iteration itself raises. *)
Lemma for_each_message_run iris_client messages failure vars w :
  let attempts := relay_attempts iris_client messages w in
  let end_ := for_each_message iris_client messages failure vars w in
  processed_messages end_.1.2 = processed_messages vars + Z.of_nat (length attempts) /\
  messages_to_mark_read end_.1.2 =
    messages_to_mark_read vars ++ map pending_item (completed attempts) /\
  end_.2 = match raised attempts with Some e => Some e | None => failure end /\
  bulk_updates end_.1.1 = bulk_updates w /\
  posted end_.1.1 = posted w ++ requests_of (map fst attempts).
Proof.
  revert vars w. induction messages as [|message rest IH]; intros vars w; simpl.
  - rewrite !app_nil_r. split; [lia |]. done.
  - destruct (relay_run message iris_client w) as [Hb _].
    pose proof (relay_posted message iris_client w) as Hp.
    destruct (relay message iris_client w) as [w' [outcome|e]]; cbn [fst snd] in *.
    + specialize (IH {| processed_messages := processed_messages vars + 1;
                        messages_to_mark_read :=
                          messages_to_mark_read vars ++ [pending_item message] |} w').
      cbn zeta in IH. destruct IH as (Hn & Hl & He & Hbu & Hposted).
      cbn [processed_messages messages_to_mark_read] in *.
      change (set_is_read true message, ["is_read"%string]) with (pending_item message).
      rewrite completed_cons_Return, raised_cons_Return.
      split; [etrans; [exact Hn |]; cbn [length]; lia |].
      split; [etrans; [exact Hl |]; by rewrite <- app_assoc |].
      split; [exact He |].
      split; [etrans; [exact Hbu | exact Hb] |].
      cbn [map fst]. rewrite (requests_of_cons message (map fst _)).
      etrans; [exact Hposted |]. by rewrite Hp, app_assoc.
    + simpl. rewrite app_nil_r.
      split; [lia |]. split; [done |]. split; [done |]. split; [exact Hb | exact Hp].
Qed.

(** The metrics the loop writes. *)
Lemma for_each_message_writes_only iris_client messages failure vars w :
  writes_only relay_counters w (for_each_message iris_client messages failure vars w).1.1.
Proof.
  revert vars w. induction messages as [|message rest IH]; intros vars w; simpl.
  - apply writes_only_refl.
  - pose proof (relay_writes_only message iris_client w) as Hrelay.
    destruct (relay message iris_client w) as [w' [outcome|e]]; simpl in *; [| done].
    eapply writes_only_trans; [exact Hrelay | apply IH].
Qed.

Lemma for_each_message_keeps_counter key iris_client messages failure vars w :
  key ∉ relay_counters ->
  counter key (for_each_message iris_client messages failure vars w).1.1 = counter key w.
Proof.
  intros Hkey. unfold counter.
  destruct (for_each_message_writes_only iris_client messages failure vars w key)
    as [Hframe _].
  by rewrite Hframe.
Qed.

(** The ERROR records the loop adds are those of its relay calls, one for
    each failed POST, and each has added one to the failure counter. *)
Lemma for_each_message_failures iris_client messages failure vars w :
  let attempts := relay_attempts iris_client messages w in
  let end_ := for_each_message iris_client messages failure vars w in
  errors (log end_.1.1) =
    errors (log w) ++ loop_errors iris_client (posted w) (map fst attempts) /\
  counter "message_relay_failure_count" end_.1.1 =
    counter "message_relay_failure_count" w +
    Z.of_nat (length (loop_errors iris_client (posted w) (map fst attempts))).
Proof.
  revert vars w. induction messages as [|message rest IH]; intros vars w;
    cbn [for_each_message relay_attempts].
  - simpl. rewrite app_nil_r. split; [done | lia].
  - destruct (relay_failures message iris_client w) as [He Hc].
    pose proof (relay_posted message iris_client w) as Hp.
    destruct (relay message iris_client w) as [w' [outcome|e]];
      cbn [fst snd map loop_errors] in *.
    + specialize (IH {| processed_messages := processed_messages vars + 1;
                        messages_to_mark_read :=
                          messages_to_mark_read vars ++
                          [(set_is_read true message, ["is_read"%string])] |} w').
      cbn zeta in IH. destruct IH as [He' Hc']. rewrite <- Hp.
      split.
      * etrans; [exact He' |]. by rewrite He, <- app_assoc.
      * etrans; [exact Hc' |]. rewrite Hc, length_app. lia.
    + cbn [loop_errors]. rewrite app_nil_r. done.
Qed.

(** ** The three blocks of [poll] *)

Ltac counters :=
  unfold counter; cbn [metrics];
  repeat first [rewrite lookup_insert_eq | rewrite lookup_insert_ne by done];
  simpl; try lia.

(** [writes_only] for a world built by inserting into the metrics. *)
Ltac solve_writes :=
  intros key; cbn [metrics fst snd]; split;
  [ intros Hk;
    repeat (rewrite lookup_insert_ne; [| intros <-; apply Hk; list_mem]);
    reflexivity
  | intros Hs; repeat (apply lookup_insert_is_Some'; right); exact Hs ].

Lemma gather_counts_run account w :
  posted (gather_counts account w).1 = posted w /\
  bulk_updates (gather_counts account w).1 = bulk_updates w /\
  (counts_raise_only_EWSError account -> (gather_counts account w).2 = Return tt).
Proof.
  unfold gather_counts, counts_raise_only_EWSError. run.
  destruct (total_count account) as [total|e]; simpl.
  - destruct (unread_count account) as [unread_now|e]; simpl; [done |].
    destruct (is_EWSError e) eqn:He; simpl; [done |].
    split; [done | split; [done |]]. intros [_ H]. specialize (H e eq_refl). congruence.
  - destruct (is_EWSError e) eqn:He; simpl; [done |].
    split; [done | split; [done |]]. intros [H _]. specialize (H e eq_refl). congruence.
Qed.

Lemma gather_counts_writes_only account w :
  writes_only ["total_inbox_count"; "unread_inbox_count"; "owa_api_failure_count"]%string
    w (gather_counts account w).1.
Proof.
  unfold gather_counts. run.
  destruct (total_count account) as [total|e]; simpl.
  - destruct (unread_count account) as [unread_now|e]; simpl; [solve_writes |].
    destruct (is_EWSError e); simpl; solve_writes.
  - destruct (is_EWSError e); simpl; solve_writes.
Qed.

Lemma gather_counts_failures account w :
  counts_raise_only_EWSError account ->
  counter "owa_api_failure_count" (gather_counts account w).1 =
    counter "owa_api_failure_count" w +
    match total_count account, unread_count account with
    | Return _, Return _ => 0
    | _, _ => 1
    end /\
  errors (log (gather_counts account w).1) = errors (log w) ++ counts_errors account.
Proof.
  intros [Ht Hu]. unfold gather_counts, counts_errors. run.
  destruct (total_count account) as [total|e]; simpl.
  - destruct (unread_count account) as [unread_now|e]; simpl.
    + rewrite app_nil_r. split; [counters | done].
    + rewrite (Hu e eq_refl). simpl. rewrite errors_app. split; [counters | done].
  - rewrite (Ht e eq_refl). simpl. rewrite errors_app. split; [counters | done].
Qed.

Lemma iterate_inbox_run account iris_client w :
  let attempts := relay_attempts iris_client (unread account) w in
  bulk_updates (iterate_inbox account iris_client w).1 = bulk_updates w /\
  (forall vars, (iterate_inbox account iris_client w).2 = Return vars ->
     processed_messages vars = Z.of_nat (length attempts) /\
     messages_to_mark_read vars = map pending_item (completed attempts)) /\
  (completed attempts = unread account ->
   (forall e, unread_failure account = Some e -> is_EWSError e = true) ->
   (iterate_inbox account iris_client w).2 =
     Return {| processed_messages := Z.of_nat (length (unread account));
               messages_to_mark_read := map pending_item (unread account) |}).
Proof.
  intros attempts. unfold iterate_inbox, run_loop.
  pose proof (for_each_message_run iris_client (unread account) (unread_failure account)
                {| processed_messages := 0; messages_to_mark_read := [] |} w) as H.
  cbn zeta in H. fold attempts in H.
  destruct (for_each_message _ _ _ _ w) as [[w' vars] exc].
  cbn [fst snd processed_messages messages_to_mark_read app] in H.
  destruct H as (Hn & Hl & He & Hb & _).
  assert (Hvars : forall vars0, Return vars = Return vars0 ->
            processed_messages vars0 = Z.of_nat (length attempts) /\
            messages_to_mark_read vars0 = map pending_item (completed attempts)).
  { intros vars0 [= <-]. split; [lia | done]. }
  assert (Hall : completed attempts = unread account ->
            vars = {| processed_messages := Z.of_nat (length (unread account));
                      messages_to_mark_read := map pending_item (unread account) |} /\
            exc = unread_failure account).
  { intros Hc.
    destruct (completed_all iris_client (unread account) w Hc) as (_ & Hlen & Hr).
    fold attempts in Hlen, Hr. rewrite Hr in He. rewrite Hc in Hl. rewrite Hlen in Hn.
    split; [| done]. destruct vars as [n l]. simpl in *. f_equal; [lia | done]. }
  destruct exc as [e|]; [destruct (is_EWSError e) eqn:Hews |]; run; simpl.
  - split; [done | split; [exact Hvars |]].
    intros Hc _. by destruct (Hall Hc) as [-> _].
  - split; [done | split; [done |]].
    intros Hc Hfail. destruct (Hall Hc) as [_ Hexc].
    symmetry in Hexc. specialize (Hfail e Hexc). congruence.
  - split; [done | split; [exact Hvars |]].
    intros Hc _. by destruct (Hall Hc) as [-> _].
Qed.

Lemma iterate_inbox_world account iris_client w :
  posted (iterate_inbox account iris_client w).1 = posted (run_loop account iris_client w).1.1 /\
  (forall key, key <> "owa_api_failure_count"%string ->
     metrics (iterate_inbox account iris_client w).1 !! key =
     metrics (run_loop account iris_client w).1.1 !! key) /\
  (iterate_inbox account iris_client w).2 =
    match (run_loop account iris_client w).2 with
    | None => Return (run_loop account iris_client w).1.2
    | Some e =>
        if is_EWSError e then Return (run_loop account iris_client w).1.2 else Raise e
    end.
Proof.
  unfold iterate_inbox. destruct (run_loop account iris_client w) as [[w' vars] [e|]];
    cbn [fst snd]; [| done].
  destruct (is_EWSError e); [| done]. run. simpl.
  split; [done | split; [| done]]. intros key Hkey. by rewrite lookup_insert_ne.
Qed.

Lemma iterate_inbox_writes_only account iris_client w :
  writes_only ("owa_api_failure_count"%string :: relay_counters)
    w (iterate_inbox account iris_client w).1.
Proof.
  unfold iterate_inbox, run_loop.
  pose proof (for_each_message_writes_only iris_client (unread account)
                (unread_failure account)
                {| processed_messages := 0; messages_to_mark_read := [] |} w) as Hloop.
  apply (writes_only_weaken _ ("owa_api_failure_count"%string :: relay_counters)) in Hloop;
    [| list_incl].
  destruct (for_each_message _ _ _ _ w) as [[w' vars] [e|]]; cbn [fst snd] in *; [| done].
  destruct (is_EWSError e); [| done].
  eapply writes_only_trans; [exact Hloop |]. run. simpl. solve_writes.
Qed.

(** The failures of the loop block when every message is processed. *)
Lemma iterate_inbox_failures account iris_client w :
  (forall e, unread_failure account = Some e -> is_EWSError e = true) ->
  completed (relay_attempts iris_client (unread account) w) = unread account ->
  counter "owa_api_failure_count" (iterate_inbox account iris_client w).1 =
    counter "owa_api_failure_count" w +
    match unread_failure account with Some _ => 1 | None => 0 end /\
  errors (log (iterate_inbox account iris_client w).1) =
    errors (log w) ++ loop_errors iris_client (posted w) (unread account) ++
    iteration_errors account /\
  counter "message_relay_failure_count" (iterate_inbox account iris_client w).1 =
    counter "message_relay_failure_count" w +
    Z.of_nat (length (loop_errors iris_client (posted w) (unread account))).
Proof.
  intros Hiter Hc. unfold iterate_inbox, run_loop, iteration_errors.
  assert (Hkey : "owa_api_failure_count"%string ∉ relay_counters)
    by (unfold relay_counters; not_mem).
  pose proof (for_each_message_keeps_counter "owa_api_failure_count" iris_client
                (unread account) (unread_failure account)
                {| processed_messages := 0; messages_to_mark_read := [] |} w Hkey) as Hkeep.
  destruct (for_each_message_run iris_client (unread account) (unread_failure account)
              {| processed_messages := 0; messages_to_mark_read := [] |} w)
    as (_ & _ & He & _).
  destruct (for_each_message_failures iris_client (unread account) (unread_failure account)
              {| processed_messages := 0; messages_to_mark_read := [] |} w)
    as [Herr Hfail].
  destruct (completed_all iris_client (unread account) w Hc) as (Hf & _ & Hr).
  rewrite Hr in He. rewrite Hf in Herr, Hfail.
  destruct (for_each_message _ _ _ _ w) as [[w' vars] exc]. cbn [fst snd] in *.
  subst exc. destruct (unread_failure account) as [e|]; simpl.
  - rewrite (Hiter e eq_refl). run. cbn [fst snd].
    split; [| split].
    + unfold counter in *. cbn [metrics]. rewrite lookup_insert_eq. simpl. lia.
    + cbn [log]. rewrite errors_app, Herr. by rewrite <- app_assoc.
    + rewrite <- Hfail. unfold counter. cbn [metrics]. by rewrite lookup_insert_ne.
  - rewrite app_nil_r. split; [lia | done].
Qed.

Lemma mark_read_run account items w :
  bulk_updates (mark_read account items w).1 =
    bulk_updates w ++ match items with [] => [] | _ :: _ => [items] end /\
  posted (mark_read account items w).1 = posted w /\
  ((forall e, bulk_update_failure account items = Some e -> is_EWSError e = true) ->
   (mark_read account items w).2 = Return tt).
Proof.
  unfold mark_read. destruct items as [|item items]; run; simpl.
  - by rewrite app_nil_r.
  - destruct (bulk_update_failure account (item :: items)) as [e|]; simpl; [| done].
    destruct (is_EWSError e) eqn:He; simpl; [done |].
    split; [done | split; [done |]]. intros H. specialize (H e eq_refl). congruence.
Qed.

Lemma mark_read_writes_only account items w :
  writes_only ["owa_api_failure_count"%string] w (mark_read account items w).1.
Proof.
  unfold mark_read. destruct items as [|item items]; run; simpl; [solve_writes |].
  destruct (bulk_update_failure account (item :: items)) as [e|]; simpl; [| solve_writes].
  destruct (is_EWSError e); simpl; solve_writes.
Qed.

Lemma mark_read_failures account items w :
  (forall e, bulk_update_failure account items = Some e -> is_EWSError e = true) ->
  counter "owa_api_failure_count" (mark_read account items w).1 =
    counter "owa_api_failure_count" w +
    match items with
    | [] => 0
    | _ :: _ => match bulk_update_failure account items with Some _ => 1 | None => 0 end
    end /\
  errors (log (mark_read account items w).1) =
    errors (log w) ++
    match items with
    | [] => []
    | _ :: _ =>
        match bulk_update_failure account items with
        | Some e => [bulk_update_error (Z.of_nat (length items)) e]
        | None => []
        end
    end.
Proof.
  intros Hbulk. unfold mark_read. destruct items as [|item items]; run.
  - simpl. rewrite app_nil_r. split; [lia | done].
  - destruct (bulk_update_failure account (item :: items)) as [e|];
      cbn [fst snd metrics log].
    + rewrite (Hbulk e eq_refl). cbn [fst snd metrics log].
      rewrite !errors_app. cbn [errors List.filter level app].
      rewrite app_nil_r. split; [counters | done].
    + rewrite !errors_app. cbn [errors List.filter level app].
      rewrite !app_nil_r. split; [counters | done].
Qed.

(** [poll], block by block. *)
Lemma poll_run account iris_client w :
  exists w1 r1 w2 r2,
    gather_counts account w = (w1, r1) /\
    iterate_inbox account iris_client w1 = (w2, r2) /\
    match r1, r2 with
    | Return _, Return vars =>
        let end_ := mark_read account (messages_to_mark_read vars) w2 in
        match end_.2 with
        | Return _ =>
            (poll account iris_client w).2 = Return (processed_messages vars) /\
            metrics (poll account iris_client w).1 =
              <["message_process_count"%string := processed_messages vars]> (metrics end_.1) /\
            bulk_updates (poll account iris_client w).1 = bulk_updates end_.1 /\
            posted (poll account iris_client w).1 = posted end_.1 /\
            log (poll account iris_client w).1 = log end_.1
        | Raise e => poll account iris_client w = (end_.1, Raise e)
        end
    | Return _, Raise e => poll account iris_client w = (w2, Raise e)
    | Raise e, _ => poll account iris_client w = (w1, Raise e)
    end.
Proof.
  destruct (poll account iris_client w) as [w' r] eqn:Hpoll.
  unfold poll in Hpoll. unfold mbind at 1, Py_bind at 1 in Hpoll.
  destruct (gather_counts account w) as [w1 r1] eqn:H1.
  destruct (iterate_inbox account iris_client w1) as [w2 r2] eqn:H2.
  exists w1, r1, w2, r2. split; [done | split; [done |]].
  destruct r1 as [[]|e]; [| by destruct r2].
  unfold mbind at 1, Py_bind at 1 in Hpoll. rewrite H2 in Hpoll.
  destruct r2 as [vars|e]; [| done].
  unfold mbind at 1, Py_bind at 1 in Hpoll. cbn zeta.
  destruct (mark_read account (messages_to_mark_read vars) w2) as [w3 [[]|e]]; [| done].
  run. injection Hpoll as <- <-. done.
Qed.

Lemma poll_writes_only account iris_client w :
  writes_only metric_names w (poll account iris_client w).1.
Proof.
  destruct (poll_run account iris_client w) as (w1 & r1 & w2 & r2 & H1 & H2 & H).
  pose proof (gather_counts_writes_only account w) as Hw1.
  pose proof (iterate_inbox_writes_only account iris_client w1) as Hw2.
  rewrite H1 in Hw1. rewrite H2 in Hw2. cbn [fst snd] in *.
  apply (writes_only_weaken _ metric_names) in Hw1; [| list_incl].
  apply (writes_only_weaken _ metric_names) in Hw2;
    [| list_incl].
  destruct r1 as [[]|e]; [| destruct r2; by rewrite H].
  destruct r2 as [vars|e]; [| rewrite H; by eapply writes_only_trans].
  cbn zeta in H.
  pose proof (mark_read_writes_only account (messages_to_mark_read vars) w2) as Hw3.
  apply (writes_only_weaken _ metric_names) in Hw3; [| list_incl].
  assert (Hend : writes_only metric_names w
                   (mark_read account (messages_to_mark_read vars) w2).1)
    by (eapply writes_only_trans; [exact Hw1 |]; by eapply writes_only_trans).
  destruct (mark_read account (messages_to_mark_read vars) w2).2 as [[]|e].
  - destruct H as (_ & Hm & _). eapply writes_only_trans; [exact Hend |].
    eapply writes_only_insert; [| exact Hm]. unfold metric_names. list_mem.
  - by rewrite H.
Qed.

(** A cycle that raises has not written [message_process_count]. *)
Lemma poll_raise_keeps_count account iris_client w e :
  (poll account iris_client w).2 = Raise e ->
  metrics (poll account iris_client w).1 !! "message_process_count" =
    metrics w !! "message_process_count".
Proof.
  intros Hraise.
  destruct (poll_run account iris_client w) as (w1 & r1 & w2 & r2 & H1 & H2 & H).
  pose proof (gather_counts_writes_only account w "message_process_count"%string) as [Hw1 _].
  pose proof (iterate_inbox_writes_only account iris_client w1
                "message_process_count"%string) as [Hw2 _].
  rewrite H1 in Hw1. rewrite H2 in Hw2. cbn [fst snd] in *.
  assert (H01 : metrics w1 !! "message_process_count" = metrics w !! "message_process_count")
    by (apply Hw1; not_mem).
  assert (H12 : metrics w2 !! "message_process_count" = metrics w1 !! "message_process_count")
    by (apply Hw2; unfold relay_counters; not_mem).
  destruct r1 as [[]|e1]; [| destruct r2; by rewrite H].
  destruct r2 as [vars|e2]; [| rewrite H; cbn [fst]; congruence].
  cbn zeta in H.
  pose proof (mark_read_writes_only account (messages_to_mark_read vars) w2
                "message_process_count"%string) as [Hw3 _].
  destruct (mark_read account (messages_to_mark_read vars) w2) as [w3 [[]|e3]];
    cbn [fst snd] in *.
  - destruct H as (Hr & _). congruence.
  - rewrite H. cbn [fst]. rewrite Hw3 by not_mem. congruence.
Qed.

(** The world [poll] leaves, seen from the loop, when the counts were
    gathered. *)
Lemma poll_world account iris_client w :
  (gather_counts account w).2 = Return tt ->
  let loop := run_loop account iris_client (gather_counts account w).1 in
  posted (poll account iris_client w).1 = posted loop.1.1 /\
  (forall key, key ∈ relay_counters ->
     metrics (poll account iris_client w).1 !! key = metrics loop.1.1 !! key).
Proof.
  intros Hcounts loop.
  destruct (poll_run account iris_client w) as (w1 & r1 & w2 & r2 & H1 & H2 & H).
  rewrite H1 in Hcounts. simpl in Hcounts. subst r1.
  assert (Hw1 : (gather_counts account w).1 = w1) by (by rewrite H1).
  unfold loop. rewrite Hw1.
  destruct (iterate_inbox_world account iris_client w1) as (Hp & Hm & _).
  rewrite H2 in Hp, Hm. cbn [fst snd] in Hp, Hm.
  assert (Hkeys : forall key, key ∈ relay_counters ->
            key <> "owa_api_failure_count"%string /\
            (key ∉ ["owa_api_failure_count"%string]) /\
            key <> "message_process_count"%string).
  { intros key Hin. unfold relay_counters in Hin. apply list_elem_of_In in Hin.
    simpl in Hin. destruct Hin as [<-|[<-|[<-|[]]]];
      (split; [done | split; [| done]]); rewrite list_elem_of_singleton; done. }
  destruct r2 as [vars|e].
  - cbn zeta in H.
    destruct (mark_read_run account (messages_to_mark_read vars) w2) as (_ & Hp3 & _).
    pose proof (mark_read_writes_only account (messages_to_mark_read vars) w2) as Hw3.
    destruct (mark_read account (messages_to_mark_read vars) w2) as [w3 r3] eqn:H3.
    cbn [fst snd] in *. destruct r3 as [[]|e].
    + destruct H as (_ & Hmetrics & _ & Hposted & _). split; [congruence |].
      intros key Hkey. destruct (Hkeys key Hkey) as (Ha & Hb & Hc).
      rewrite Hmetrics, lookup_insert_ne by done.
      destruct (Hw3 key) as [Hframe _]. rewrite (Hframe Hb). by apply Hm.
    + rewrite H. cbn [fst snd]. split; [by rewrite Hp3 |].
      intros key Hkey. destruct (Hkeys key Hkey) as (Ha & Hb & Hc).
      destruct (Hw3 key) as [Hframe _]. rewrite (Hframe Hb). by apply Hm.
  - rewrite H. cbn [fst snd]. split; [done |].
    intros key Hkey. destruct (Hkeys key Hkey) as (Ha & _). by apply Hm.
Qed.

Lemma poll_posted account iris_client w :
  (gather_counts account w).2 = Return tt ->
  posted (poll account iris_client w).1 =
    posted w ++ requests_of (map fst (relay_attempts iris_client (unread account) w)).
Proof.
  intros Hret.
  destruct (gather_counts_run account w) as (Hp1 & _ & _).
  destruct (poll_world account iris_client w Hret) as [Hp _].
  rewrite Hp. unfold run_loop.
  destruct (for_each_message_run iris_client (unread account) (unread_failure account)
              {| processed_messages := 0; messages_to_mark_read := [] |}
              (gather_counts account w).1) as (_ & _ & _ & _ & ->).
  by rewrite Hp1, (relay_attempts_posted_only _ _ (gather_counts account w).1 w Hp1).
Qed.

(** How the loop ends depends on the world through the posted requests
    only. *)
Lemma run_loop_outcome account iris_client w w0 :
  posted w0 = posted w ->
  (run_loop account iris_client w0).2 = (run_loop account iris_client w).2 /\
  (run_loop account iris_client w0).1.2 = (run_loop account iris_client w).1.2.
Proof.
  intros Hp. unfold run_loop.
  destruct (for_each_message_run iris_client (unread account) (unread_failure account)
              {| processed_messages := 0; messages_to_mark_read := [] |} w0)
    as (Hn0 & Hl0 & -> & _).
  destruct (for_each_message_run iris_client (unread account) (unread_failure account)
              {| processed_messages := 0; messages_to_mark_read := [] |} w)
    as (Hn & Hl & -> & _).
  rewrite (relay_attempts_posted_only _ _ w0 w Hp) in *. split; [done |].
  destruct (for_each_message _ _ _ _ w0).1.2 as [n0 l0],
           (for_each_message _ _ _ _ w).1.2 as [n l].
  simpl in *. congruence.
Qed.

(** With collaborators that fail with their own error classes and messages
    that have the fields [relay] reads, a cycle returns; what it leaves. *)
Lemma poll_conforming account iris_client w :
  raises_only_EWSError account ->
  raises_only_RequestException iris_client ->
  all_readable account ->
  (poll account iris_client w).2 = Return (Z.of_nat (length (unread account))) /\
  metrics (poll account iris_client w).1 !! "message_process_count" =
    Some (Z.of_nat (length (unread account))) /\
  counter "owa_api_failure_count" (poll account iris_client w).1 =
    counter "owa_api_failure_count" w + provider_failures account /\
  errors (log (poll account iris_client w).1) =
    errors (log w) ++ counts_errors account ++
    loop_errors iris_client (posted w) (unread account) ++
    iteration_errors account ++ bulk_update_errors account /\
  counter "message_relay_failure_count" (poll account iris_client w).1 =
    counter "message_relay_failure_count" w +
    Z.of_nat (length (loop_errors iris_client (posted w) (unread account))).
Proof.
  intros (Hc & Hiter & Hbulk) Hclient Hreadable.
  destruct (poll_run account iris_client w) as (w1 & r1 & w2 & r2 & H1 & H2 & H).
  destruct (gather_counts_run account w) as (Hp1 & _ & Hcounts).
  destruct (gather_counts_failures account w Hc) as [Hf1 He1].
  pose proof (gather_counts_writes_only account w "message_relay_failure_count"%string)
    as [Hw1 _].
  destruct (relay_attempts_complete iris_client (unread account) w1 Hclient Hreadable)
    as (Hcompleted & _).
  destruct (iterate_inbox_run account iris_client w1) as (_ & _ & Hall).
  destruct (iterate_inbox_failures account iris_client w1 Hiter Hcompleted)
    as (Hf2 & He2 & Hr2).
  rewrite H1 in Hp1, Hcounts, Hf1, He1, Hw1. rewrite H2 in Hall, Hf2, He2, Hr2.
  cbn [fst snd] in *.
  rewrite (Hcounts Hc), (Hall Hcompleted Hiter) in H. cbn zeta in H.
  cbn [processed_messages messages_to_mark_read] in H.
  destruct (mark_read_run account (map pending_item (unread account)) w2) as (_ & _ & Hm).
  destruct (mark_read_failures account (map pending_item (unread account)) w2 (Hbulk _))
    as [Hf3 He3].
  pose proof (mark_read_writes_only account (map pending_item (unread account)) w2
                "message_relay_failure_count"%string) as [Hw3 _].
  rewrite (Hm (Hbulk _)) in H. destruct H as (Hr & Hmetrics & _ & _ & Hlog).
  split; [exact Hr |]. split; [rewrite Hmetrics; apply lookup_insert_eq |].
  split; [| split].
  - unfold counter at 1. rewrite Hmetrics, lookup_insert_ne by done.
    fold (counter "owa_api_failure_count"
            (mark_read account (map pending_item (unread account)) w2).1).
    rewrite Hf3, Hf2, Hf1. unfold provider_failures.
    destruct (unread account); simpl; lia.
  - rewrite Hlog, He3, He2, He1, Hp1. unfold bulk_update_errors.
    rewrite <- !app_assoc. do 3 f_equal.
    destruct (unread account) as [|message rest]; [done |].
    cbn [map length]. by rewrite length_map.
  - unfold counter at 1. rewrite Hmetrics, lookup_insert_ne by done.
    rewrite Hw3 by not_mem.
    fold (counter "message_relay_failure_count" w2). rewrite Hr2, Hp1.
    unfold counter at 1. rewrite Hw1 by not_mem. done.
Qed.

(** ** The poller *)

(** (C5) The pending list the loop leaves holds, in order, the messages
    whose relay attempt completed, whatever its outcome, and no other: each
    entry is the message as the query yielded it with the read flag set,
    paired with the field name [is_read]; a message enters the list once
    [relay] has returned for it, and a message on which [relay] raised is
    not in it.  With a client that fails with request errors only and
    messages that have the fields [relay] reads, every attempt completes
    and the list holds every message the query yielded. *)
Theorem pending_iff_relay_completed account iris_client w :
  let attempts := relay_attempts iris_client (unread account) w in
  let pending := messages_to_mark_read (run_loop account iris_client w).1.2 in
  let item (message : Message) : UpdateItem :=
    ({| message_id := message_id message; sender := sender message;
        to_recipients := to_recipients message; headers := headers message;
        text_body := text_body message; is_read := true |},
     ["is_read"%string]) in
  pending = map item (completed attempts) /\
  map fst attempts `prefix_of` unread account /\
  Forall (fun item : UpdateItem => is_read item.1 = true) pending /\
  (raises_only_RequestException iris_client -> all_readable account ->
   pending = map item (unread account)).
Proof.
  intros attempts pending item.
  destruct (for_each_message_run iris_client (unread account) (unread_failure account)
              {| processed_messages := 0; messages_to_mark_read := [] |} w)
    as (_ & Hl & _).
  fold (run_loop account iris_client w) in Hl. fold attempts in Hl. fold pending in Hl.
  simpl in Hl. change (map pending_item (completed attempts))
    with (map item (completed attempts)) in Hl.
  split; [exact Hl |]. split; [apply relay_attempts_prefix |]. split.
  - rewrite Hl. apply Forall_map, Forall_true. done.
  - intros Hclient Hreadable. rewrite Hl. unfold attempts.
    by destruct (relay_attempts_complete iris_client (unread account) w Hclient Hreadable)
      as [-> _].
Qed.

Lemma pending_iff_relay_completed_witness :
  messages_to_mark_read (run_loop (inbox [M3; M2; M1] None) (answering 500) initial_world).1.2 =
  [({| message_id := message_id M3; sender := sender M3;
       to_recipients := to_recipients M3; headers := headers M3;
       text_body := text_body M3; is_read := true |}, ["is_read"%string]);
   ({| message_id := message_id M2; sender := sender M2;
       to_recipients := to_recipients M2; headers := headers M2;
       text_body := text_body M2; is_read := true |}, ["is_read"%string]);
   ({| message_id := message_id M1; sender := sender M1;
       to_recipients := to_recipients M1; headers := headers M1;
       text_body := text_body M1; is_read := true |}, ["is_read"%string])].
Proof.
  destruct (pending_iff_relay_completed (inbox [M3; M2; M1] None) (answering 500)
              initial_world) as (_ & _ & _ & H).
  apply H; [intros history request e Hr; discriminate Hr | reflexivity].
Defined.

(** (C6, counterexample) Two cycles in which the loop went through two
    messages and [poll] returned no count and left [message_process_count]
    at its old value: in the first the iteration raises an exception that
    is no provider error, in the second the second message has no text
    body. *)
Lemma poll_count_not_returned :
  (poll (inbox [M3; M1] (Some (OtherException "RuntimeError"))) (answering 200)
     initial_world).2 = Raise (OtherException "RuntimeError") /\
  processed_messages
    (run_loop (inbox [M3; M1] (Some (OtherException "RuntimeError"))) (answering 200)
       initial_world).1.2 = 2 /\
  metrics (poll (inbox [M3; M1] (Some (OtherException "RuntimeError"))) (answering 200)
             initial_world).1 !! "message_process_count" = Some 0 /\
  (poll (inbox [M3; M5] None) (answering 200) initial_world).2 = Raise AttributeError /\
  processed_messages
    (run_loop (inbox [M3; M5] None) (answering 200) initial_world).1.2 = 2 /\
  metrics (poll (inbox [M3; M5] None) (answering 200) initial_world).1
    !! "message_process_count" = Some 0.
Proof. repeat split; vm_compute; reflexivity. Qed.

(** (C6, amended) Whenever [poll] returns, it returns the number of
    messages the loop went through, whatever [relay] made of them, and it
    has stored that number in [message_process_count]; when it raises, it
    has not written [message_process_count].  It returns, and the number is
    that of the messages the query yielded, when the mailbox provider fails
    with provider errors only, the POST with request errors only, and every
    message has the fields [relay] reads. *)
Theorem poll_counts_iterated account iris_client w :
  (forall w' n, poll account iris_client w = (w', Return n) ->
     n = Z.of_nat (length (relay_attempts iris_client (unread account) w)) /\
     metrics w' !! "message_process_count" = Some n) /\
  (forall w' e, poll account iris_client w = (w', Raise e) ->
     metrics w' !! "message_process_count" = metrics w !! "message_process_count") /\
  (raises_only_EWSError account -> raises_only_RequestException iris_client ->
   all_readable account ->
   exists w',
     poll account iris_client w = (w', Return (Z.of_nat (length (unread account)))) /\
     metrics w' !! "message_process_count" = Some (Z.of_nat (length (unread account)))).
Proof.
  split; [| split].
  - destruct (poll_run account iris_client w) as (w1 & r1 & w2 & r2 & H1 & H2 & H).
    destruct (gather_counts_run account w) as (Hp1 & _ & _).
    destruct (iterate_inbox_run account iris_client w1) as (_ & Hvars & _).
    rewrite H1 in Hp1. rewrite H2 in Hvars. cbn [fst snd] in *.
    rewrite (relay_attempts_posted_only _ _ w1 w Hp1) in Hvars.
    intros w' n Hpoll. rewrite Hpoll in H. cbn [fst snd] in H.
    destruct r1 as [[]|e]; [| by destruct r2].
    destruct r2 as [vars|e]; [| done].
    destruct (Hvars vars eq_refl) as [Hn _]. cbn zeta in H.
    destruct (mark_read account (messages_to_mark_read vars) w2).2 as [[]|e]; [| done].
    destruct H as ([= ->] & -> & _). split; [exact Hn | apply lookup_insert_eq].
  - intros w' e Hpoll.
    pose proof (poll_raise_keeps_count account iris_client w e) as H.
    rewrite Hpoll in H. by apply H.
  - intros Haccount Hclient Hreadable.
    destruct (poll_conforming account iris_client w Haccount Hclient Hreadable)
      as (Hr & Hm & _).
    exists (poll account iris_client w).1. split; [| exact Hm].
    rewrite <- Hr. by destruct (poll account iris_client w).
Qed.

Lemma poll_counts_iterated_witness :
  exists w',
    poll (inbox [M3; M2; M1] None) (answering 500) initial_world = (w', Return 3) /\
    metrics w' !! "message_process_count" = Some 3.
Proof.
  destruct (poll_counts_iterated (inbox [M3; M2; M1] None) (answering 500) initial_world)
    as (_ & _ & H).
  apply H.
  - split; [split; intros e He; discriminate He |].
    split; [intros e He; discriminate He | intros items e He; discriminate He].
  - intros history request e He. discriminate He.
  - reflexivity.
Defined.

(** (C7) In a cycle that reaches its loop, when the iteration raises a
    provider error after the query has yielded N messages, all of them
    processed, the loop ends with that error, its counter is N, the pending
    list holds exactly those N messages, each as the query yielded it with
    the read flag set, and [poll] issues one bulk update, with that list,
    when N > 0 and none when N = 0. *)
Theorem poll_partial_iteration account iris_client w e :
  unread_failure account = Some e ->
  is_EWSError e = true ->
  (gather_counts account w).2 = Return tt ->
  completed (relay_attempts iris_client (unread account) w) = unread account ->
  let pending : list UpdateItem :=
    map (fun message =>
           ({| message_id := message_id message; sender := sender message;
               to_recipients := to_recipients message; headers := headers message;
               text_body := text_body message; is_read := true |},
            ["is_read"%string]))
        (unread account) in
  (run_loop account iris_client w).2 = Some e /\
  (run_loop account iris_client w).1.2 =
    {| processed_messages := Z.of_nat (length (unread account));
       messages_to_mark_read := pending |} /\
  bulk_updates (poll account iris_client w).1 =
    bulk_updates w ++ match unread account with [] => [] | _ :: _ => [pending] end.
Proof.
  intros Hfail Hews Hcounts Hcompleted pending.
  change pending with (map pending_item (unread account)).
  destruct (for_each_message_run iris_client (unread account) (unread_failure account)
              {| processed_messages := 0; messages_to_mark_read := [] |} w)
    as (Hn & Hl & He & _).
  fold (run_loop account iris_client w) in Hn, Hl, He.
  destruct (completed_all iris_client (unread account) w Hcompleted) as (_ & Hlen & Hr).
  rewrite Hr, Hfail in He. rewrite Hcompleted in Hl. rewrite Hlen in Hn.
  split; [exact He |]. split.
  { destruct (run_loop account iris_client w).1.2 as [n l].
    simpl in Hn, Hl. subst n l. done. }
  destruct (poll_run account iris_client w) as (w1 & r1 & w2 & r2 & H1 & H2 & H).
  destruct (gather_counts_run account w) as (Hp1 & Hb1 & _).
  rewrite H1 in Hp1, Hb1, Hcounts. cbn [fst snd] in *. subst r1.
  destruct (iterate_inbox_run account iris_client w1) as (Hb2 & _ & Hall).
  rewrite (relay_attempts_posted_only _ _ w1 w Hp1) in Hall.
  rewrite H2 in Hb2, Hall. cbn [fst snd] in *.
  rewrite Hall in H; [| done | intros e' He'; congruence].
  cbn zeta in H. cbn [messages_to_mark_read] in H.
  destruct (mark_read_run account (map pending_item (unread account)) w2) as [Hb3 _].
  assert (Hend : bulk_updates (poll account iris_client w).1 =
                 bulk_updates (mark_read account (map pending_item (unread account)) w2).1).
  { destruct (mark_read account (map pending_item (unread account)) w2).2 as [[]|e'].
    - by destruct H as (_ & _ & -> & _).
    - by rewrite H. }
  rewrite Hend, Hb3, Hb2, Hb1. f_equal.
  by destruct (unread account).
Qed.

Lemma poll_partial_iteration_witness :
  bulk_updates
    (poll (inbox [M3; M2] (Some (EWSError "ErrorServerBusy"))) unreachable initial_world).1 =
  [[({| message_id := message_id M3; sender := sender M3;
        to_recipients := to_recipients M3; headers := headers M3;
        text_body := text_body M3; is_read := true |}, ["is_read"%string]);
    ({| message_id := message_id M2; sender := sender M2;
        to_recipients := to_recipients M2; headers := headers M2;
        text_body := text_body M2; is_read := true |}, ["is_read"%string])]] /\
  bulk_updates
    (poll (inbox [] (Some (EWSError "ErrorServerBusy"))) unreachable initial_world).1 = [].
Proof.
  split.
  - destruct (poll_partial_iteration
                (inbox [M3; M2] (Some (EWSError "ErrorServerBusy"))) unreachable
                initial_world (EWSError "ErrorServerBusy")) as (_ & _ & H);
      [reflexivity | reflexivity | reflexivity | vm_compute; reflexivity |].
    exact H.
  - destruct (poll_partial_iteration
                (inbox [] (Some (EWSError "ErrorServerBusy"))) unreachable
                initial_world (EWSError "ErrorServerBusy")) as (_ & _ & H);
      [reflexivity | reflexivity | reflexivity | reflexivity |].
    exact H.
Defined.

(** (C8, counterexample) An exception outside the two caught classes
    leaves [poll]: one raised by the iteration over the inbox, one raised by
    the POST, and the one [relay] raises on a message without text body. *)
Lemma poll_raises :
  (poll (inbox [M3] (Some (OtherException "RuntimeError"))) (answering 200) initial_world).2 =
    Raise (OtherException "RuntimeError") /\
  (poll (inbox [M3] None) {| respond := fun _ _ => Raise (OtherException "Timeout") |}
     initial_world).2 =
    Raise (OtherException "Timeout") /\
  (poll (inbox [M5] None) (answering 200) initial_world).2 = Raise AttributeError.
Proof. repeat split; vm_compute; reflexivity. Qed.

(** (C8, amended) When every failure of the mailbox provider (count fetch,
    iteration, bulk update) is a provider error, every failure of the POST
    is a request error and every message has the fields [relay] reads,
    [poll] does not raise: it returns the number of messages the query
    yielded, and each failure has become one ERROR record and one
    increment.  The ERROR records of the cycle are, in order, that of the
    count fetch, those of the failed POSTs, that of the iteration and that
    of the bulk update; [owa_api_failure_count] has grown by the number of
    provider failures and [message_relay_failure_count] by the number of
    failed POSTs.  The turn of the scheduler loop that runs this cycle goes
    on to its sleep. *)
Theorem poll_returns account iris_client w :
  raises_only_EWSError account ->
  raises_only_RequestException iris_client ->
  all_readable account ->
  exists w',
    poll account iris_client w = (w', Return (Z.of_nat (length (unread account)))) /\
    errors (log w') =
      errors (log w) ++
      match total_count account, unread_count account with
      | Return _, Return _ => []
      | Return _, Raise e | Raise e, _ =>
          [{| level := ERROR; fmt := "Failed to gather inbox counts from OWA API";
              args := []; exc_info := Some e |}]
      end ++
      loop_errors iris_client (posted w) (unread account) ++
      match unread_failure account with
      | Some e =>
          [{| level := ERROR; fmt := "Failed to iterate through inbox";
              args := []; exc_info := Some e |}]
      | None => []
      end ++
      match unread account with
      | [] => []
      | _ :: _ =>
          match bulk_update_failure account (map pending_item (unread account)) with
          | Some e =>
              [{| level := ERROR;
                  fmt := "Failed to update read status on %s messages in bulk";
                  args := [ArgInt (Z.of_nat (length (unread account)))];
                  exc_info := Some e |}]
          | None => []
          end
      end /\
    counter "owa_api_failure_count" w' =
      counter "owa_api_failure_count" w + provider_failures account /\
    counter "message_relay_failure_count" w' =
      counter "message_relay_failure_count" w +
      Z.of_nat (length (loop_errors iris_client (posted w) (unread account))) /\
    (forall (Time : Type) (elapsed : Time -> Time -> Time) (time : nat -> Time)
            (account_at : nat -> Account) (boot_time : Time) (nap_time : Z)
            (p : @Process Time),
       world p = w -> account_at (cycle p) = account ->
       let turn := main_loop elapsed time account_at 1 boot_time nap_time iris_client p in
       turn.2 = None /\ world turn.1 = w' /\
       last (steps turn.1) = Some (Sleep nap_time)).
Proof.
  intros Haccount Hclient Hreadable.
  destruct (poll_conforming account iris_client w Haccount Hclient Hreadable)
    as (Hr & _ & Howa & Herrors & Hfailures).
  exists (poll account iris_client w).1.
  assert (Hpoll : poll account iris_client w =
                    ((poll account iris_client w).1,
                     Return (Z.of_nat (length (unread account)))))
    by (rewrite <- Hr; by destruct (poll account iris_client w)).
  split; [exact Hpoll |]. split.
  { exact Herrors. }
  split; [exact Howa |]. split; [exact Hfailures |].
  intros Time elapsed time account_at boot_time nap_time p Hw Ha. cbn [main_loop].
  rewrite Ha, Hw, Hpoll. cbn [fst snd world steps].
  split; [done |]. split; [done |].
  by rewrite last_app.
Qed.

Lemma poll_returns_witness :
  exists w',
    poll {| total_count := Raise (EWSError "ErrorFolderNotFound");
            unread_count := Return 2;
            unread := [M3; M2];
            unread_failure := Some (EWSError "ErrorServerBusy");
            bulk_update_failure := fun _ => Some (EWSError "ErrorTimeoutExpired") |}
         unreachable initial_world = (w', Return 2) /\
    errors (log w') =
      [counts_error (EWSError "ErrorFolderNotFound");
       relay_error M3 (address "carol@example.org") (RequestException "ConnectionError");
       iteration_error (EWSError "ErrorServerBusy");
       bulk_update_error 2 (EWSError "ErrorTimeoutExpired")] /\
    counter "owa_api_failure_count" w' = 3 /\
    counter "message_relay_failure_count" w' = 1.
Proof.
  destruct (poll_returns
              {| total_count := Raise (EWSError "ErrorFolderNotFound");
                 unread_count := Return 2;
                 unread := [M3; M2];
                 unread_failure := Some (EWSError "ErrorServerBusy");
                 bulk_update_failure := fun _ => Some (EWSError "ErrorTimeoutExpired") |}
              unreachable initial_world) as (w' & Hpoll & Herrors & Howa & Hfail & _).
  - split; [split; [intros e [= <-]; reflexivity | intros e He; discriminate He] |].
    split; [intros e [= <-]; reflexivity | intros items e [= <-]; reflexivity].
  - intros history request e [= <-]. reflexivity.
  - reflexivity.
  - exists w'. split; [exact Hpoll |]. split; [exact Herrors |].
    split; [exact Howa | exact Hfail].
Defined.

(** ** The end-to-end scenarios of the specification *)

(** Three unread messages, the second one a bulk message: two POSTs, for
    the first and the third, all three messages in the one bulk update,
    [message_process_count] 3 and [message_ignore_count] 1. *)
Example three_unread_one_bulk :
  let cycle := poll (inbox [M3; M2; M1] None) (answering 200) initial_world in
  cycle.2 = Return 3 /\
  posted cycle.1 = requests_of [M3; M1] /\
  bulk_updates cycle.1 = [[pending_item M3; pending_item M2; pending_item M1]] /\
  counter "message_process_count" cycle.1 = 3 /\
  counter "message_ignore_count" cycle.1 = 1.
Proof. vm_compute. repeat split. Qed.

(** The downstream API answers 500: the failure is counted, the message is
    still marked read, and [poll] returns. *)
Example downstream_error :
  let cycle := poll (inbox [M1] None) (answering 500) initial_world in
  cycle.2 = Return 1 /\
  counter "message_relay_failure_count" cycle.1 = 1 /\
  bulk_updates cycle.1 = [[pending_item M1]].
Proof. vm_compute. repeat split. Qed.

(** * Properties of the rest of the file *)

(** ** Metrics written *)

(** (X9) [poll], whatever the collaborators do and however it ends, changes
    no metric that [default_metrics] does not declare, and creates or
    removes none: when the declared metrics are present, the set of metrics
    is the same afterwards. *)
Theorem poll_touches_declared_metrics_only account iris_client w :
  (forall key, key ∉ dom default_metrics ->
     metrics (poll account iris_client w).1 !! key = metrics w !! key) /\
  (dom default_metrics ⊆ dom (metrics w) ->
   dom (metrics (poll account iris_client w).1) = dom (metrics w)).
Proof.
  assert (Hnames : forall key, key ∈ dom default_metrics <-> key ∈ metric_names).
  { intros key. unfold default_metrics, metric_names.
    rewrite dom_list_to_map_L, elem_of_list_to_set. simpl. done. }
  pose proof (poll_writes_only account iris_client w) as Hw. split.
  - intros key Hkey. apply Hw. by rewrite <- Hnames.
  - intros Hsub. apply set_eq. intros key. rewrite !elem_of_dom.
    destruct (Hw key) as [Hframe Hkeep]. split; [| exact Hkeep].
    intros Hsome. destruct (decide (key ∈ metric_names)) as [Hin|Hout].
    + apply elem_of_dom, Hsub, Hnames, Hin.
    + by rewrite <- (Hframe Hout).
Qed.

Lemma poll_touches_declared_metrics_only_witness :
  dom (metrics (poll (inbox [M3; M2; M1] (Some (EWSError "ErrorServerBusy")))
                  unreachable initial_world).1) = dom (metrics initial_world).
Proof.
  destruct (poll_touches_declared_metrics_only
              (inbox [M3; M2; M1] (Some (EWSError "ErrorServerBusy")))
              unreachable initial_world) as [_ H].
  apply H. reflexivity.
Defined.

(** ** What one call of [relay] does to the world *)

(** (X1) A message for which the provider returned no header list is
    ignored whatever the client would answer: nothing is posted, no bulk
    update is issued, [message_ignore_count] goes up by one and one INFO
    record names the message and its sender.  When the provider returned no
    sender either, the call raises on reading the sender's address and
    leaves the world as it was. *)
Theorem relay_without_headers message iris_client w :
  headers message = None ->
  match sender message with
  | Some from =>
      (relay message iris_client w).2 = Return Ignored /\
      posted (relay message iris_client w).1 = posted w /\
      bulk_updates (relay message iris_client w).1 = bulk_updates w /\
      counter "message_ignore_count" (relay message iris_client w).1 =
        counter "message_ignore_count" w + 1 /\
      log (relay message iris_client w).1 =
        log w ++ [{| level := INFO; fmt := "Ignoring message with no headers %s (from %s)";
                     args := [ArgStr (message_id message);
                              ArgStr (email_address from)];
                     exc_info := None |}]
  | None => relay message iris_client w = (w, Raise AttributeError)
  end.
Proof.
  intros Hh. unfold relay. rewrite Hh.
  destruct (sender message) as [from|]; run; [| done].
  cbn [fst snd posted bulk_updates log]. unfold counter. cbn [metrics].
  by rewrite lookup_insert_eq.
Qed.

Lemma relay_without_headers_witness :
  (relay M0 unreachable initial_world).2 = Return Ignored /\
  posted (relay M0 unreachable initial_world).1 = [] /\
  counter "message_ignore_count" (relay M0 unreachable initial_world).1 = 1.
Proof.
  pose proof (relay_without_headers M0 unreachable initial_world eq_refl) as H.
  cbn [sender M0] in H. destruct H as (Hr & Hp & _ & Hc & _).
  split; [exact Hr | split; [exact Hp | exact Hc]].
Defined.

(** (X2) A call of [relay], whether it returns or raises, issues exactly one
    POST when the message has headers that match no rule, a sender and a
    text body, and none otherwise; it issues no bulk update and changes no
    metric besides its three counters. *)
Theorem relay_posts_once_iff_accepted message iris_client w :
  posted (relay message iris_client w).1 =
    posted w ++
    match headers message, sender message, text_body message with
    | Some hs, Some from, Some body =>
        if matches (map header_dict hs) then []
        else [{| path := "response/email";
                 json := {| payload_headers :=
                              map header_dict hs ++
                              match to_recipients message with
                              | Some (recipient :: _) =>
                                  [{| hname := lit "To";
                                      hvalue := email_address recipient |}]
                              | _ => []
                              end ++
                              [{| hname := lit "From"; hvalue := email_address from |}];
                            payload_body := strip body |} |}]
    | _, _, _ => []
    end /\
  bulk_updates (relay message iris_client w).1 = bulk_updates w /\
  (forall key, key ∉ relay_counters ->
     metrics (relay message iris_client w).1 !! key = metrics w !! key).
Proof.
  split; [| split].
  - rewrite relay_posted. f_equal. unfold requests_of, request_of. cbn [omap list_omap].
    destruct (headers message) as [hs|]; [| done].
    destruct (sender message) as [from|]; [| done].
    destruct (text_body message) as [body|]; [| done].
    destruct (matches (map header_dict hs)); [done |].
    unfold relay_request, outgoing_headers, with_recipient, first_recipient.
    destruct (to_recipients message) as [[|recipient rest]|]; simpl;
      by rewrite <- ?app_assoc, ?app_nil_r.
  - apply relay_run.
  - intros key Hkey. by apply relay_writes_only.
Qed.

(** ** The log of the classifier *)

(** (X3) The classifier touches nothing but the log.  When it answers
    [False] it logs nothing; when it answers [True] it logs exactly one
    WARNING record, and the pair the record names is a rule of the ignore
    set that occurs in the header list. *)
Theorem is_pointless_message_logs_the_rule headers w :
  metrics (is_pointless_message headers w).1 = metrics w /\
  posted (is_pointless_message headers w).1 = posted w /\
  bulk_updates (is_pointless_message headers w).1 = bulk_updates w /\
  (((is_pointless_message headers w).2 = Return false /\
    log (is_pointless_message headers w).1 = log w) \/
   exists rule,
     rule ∈ email_headers_to_ignore /\
     {| hname := rule.1; hvalue := rule.2 |} ∈ headers /\
     (is_pointless_message headers w).2 = Return true /\
     log (is_pointless_message headers w).1 =
       log w ++ [{| level := WARNING;
                    fmt := "Filtering out message due to header combination %s: %s";
                    args := [ArgStr rule.1; ArgStr rule.2]; exc_info := None |}]).
Proof.
  unfold is_pointless_message. rewrite is_pointless_message_among_exact.
  destruct (List.find _ _) as [rule|] eqn:Hfind; simpl.
  - split; [done | split; [done | split; [done |]]]. right. exists rule.
    apply find_some in Hfind. destruct Hfind as [Hin Hrule].
    split; [by apply list_elem_of_In |]. split; [| done].
    unfold header_in in Hrule. by apply bool_decide_eq_true in Hrule.
  - split; [done | split; [done | split; [done |]]]. by left.
Qed.

(** (X4) The answer of the classifier, and what it leaves of the metrics,
    the posted requests and the bulk updates, are the same for every order
    in which the frozenset of rules is traversed. *)
Theorem classifier_ignores_rule_order rules headers w :
  Permutation rules email_headers_to_ignore ->
  (is_pointless_message_among rules headers w).2 = (is_pointless_message headers w).2 /\
  metrics (is_pointless_message_among rules headers w).1 =
    metrics (is_pointless_message headers w).1 /\
  posted (is_pointless_message_among rules headers w).1 =
    posted (is_pointless_message headers w).1 /\
  bulk_updates (is_pointless_message_among rules headers w).1 =
    bulk_updates (is_pointless_message headers w).1.
Proof.
  intros Hperm.
  destruct (is_pointless_message_among_run rules headers w) as (w1 & -> & Hm1 & Hp1 & Hb1).
  destruct (is_pointless_message_run headers w) as (w2 & -> & Hm2 & Hp2 & Hb2).
  cbn [fst snd]. rewrite (matches_among_Permutation _ _ headers Hperm).
  split; [done |]. split; [congruence |]. split; congruence.
Qed.

Lemma classifier_ignores_rule_order_witness :
  (is_pointless_message_among
     [(lit "Precedence", lit "bulk"); (lit "X-Autoreply", lit "yes");
      (lit "Auto-Submitted", lit "auto-replied")]
     [{| hname := lit "Precedence"; hvalue := lit "bulk" |};
      {| hname := lit "X-Autoreply"; hvalue := lit "yes" |}] initial_world).2 =
  Return true.
Proof.
  destruct (classifier_ignores_rule_order
              [(lit "Precedence", lit "bulk"); (lit "X-Autoreply", lit "yes");
               (lit "Auto-Submitted", lit "auto-replied")]
              [{| hname := lit "Precedence"; hvalue := lit "bulk" |};
               {| hname := lit "X-Autoreply"; hvalue := lit "yes" |}] initial_world)
    as [H _].
  - apply (bool_decide_unpack _). vm_compute. reflexivity.
  - rewrite H. vm_compute. reflexivity.
Defined.

(** ** The log of [relay] *)

(** (X5) For a message that is relayed (headers that match no rule, a
    sender and a text body), [relay] logs nothing when the POST succeeds
    and exactly one ERROR record when it fails, naming the message and its
    sender and carrying the exception: the HTTP error of a 4xx or 5xx
    answer, or the request exception the POST raised.  An exception of
    another class leaves [relay] unlogged. *)
Theorem relay_logs_failures_only message iris_client w hs from body :
  headers message = Some hs ->
  matches (map header_dict hs) = false ->
  sender message = Some from ->
  text_body message = Some body ->
  let failure e :=
    {| level := ERROR; fmt := "Failed posting message %s (from %s) to iris-api";
       args := [ArgStr (message_id message); ArgStr (email_address from)];
       exc_info := Some e |} in
  log (relay message iris_client w).1 =
    log w ++
    match respond iris_client (posted w) (relay_request message hs from body) with
    | Return response =>
        if (400 <=? status_code response) && (status_code response <? 600)
        then [failure (RequestException "HTTPError")]
        else []
    | Raise e => if is_RequestException e then [failure e] else []
    end.
Proof.
  intros Hh Hm Hs Ht failure.
  destruct (relay_accepted message iris_client w hs from body Hh Hm Hs Ht) as [_ H].
  destruct (respond iris_client _ _) as [response|e].
  - destruct ((400 <=? status_code response) && (status_code response <? 600));
      destruct H as (_ & _ & ->); [done | by rewrite app_nil_r].
  - destruct (is_RequestException e); destruct H as (_ & _ & ->);
      [done | by rewrite app_nil_r].
Qed.

Lemma relay_logs_failures_only_witness :
  log (relay M1 (answering 200) initial_world).1 = [] /\
  log (relay M1 unreachable initial_world).1 =
    [relay_error M1 (address "dave@example.org") (RequestException "ConnectionError")].
Proof.
  split.
  - apply (relay_logs_failures_only M1 (answering 200) initial_world []
             (address "dave@example.org") (lit "resolve 17"));
      [reflexivity | vm_compute; reflexivity | reflexivity | reflexivity].
  - apply (relay_logs_failures_only M1 unreachable initial_world []
             (address "dave@example.org") (lit "resolve 17"));
      [reflexivity | vm_compute; reflexivity | reflexivity | reflexivity].
Defined.

(** ** Posts and counters of the loop *)

(** The relay counters after one call that returns. *)
Lemma relay_accounts_for message iris_client w :
  raises_only_RequestException iris_client ->
  readable message = true ->
  counter "message_ignore_count" (relay message iris_client w).1 =
    counter "message_ignore_count" w + (if ignorable message then 1 else 0) /\
  counter "message_relay_success_count" (relay message iris_client w).1 +
  counter "message_relay_failure_count" (relay message iris_client w).1 =
    counter "message_relay_success_count" w + counter "message_relay_failure_count" w +
    (if ignorable message then 0 else 1).
Proof.
  intros Hclient Hr. destruct (relay_run message iris_client w) as [_ H].
  unfold readable in Hr. destruct (sender message) as [from|]; [| done].
  destruct (ignorable message) eqn:Hi.
  { destruct H as (_ & _ & Hm & _). rewrite (counter_bumped_eq _ _ _ Hm).
    rewrite !(counter_bumped_ne _ _ _ _ Hm) by done. lia. }
  simpl in Hr. apply bool_decide_eq_true in Hr. destruct Hr as [body Hb].
  rewrite Hb in H. unfold ignorable in Hi.
  destruct (headers message) as [hs|]; [| done].
  destruct H as [_ H].
  destruct (respond iris_client _ _) as [response|e] eqn:Hresp.
  - destruct ((400 <=? status_code response) && (status_code response <? 600));
      destruct H as (_ & Hm & _); rewrite (counter_bumped_eq _ _ _ Hm);
      rewrite !(counter_bumped_ne _ _ _ _ Hm) by done; lia.
  - rewrite (Hclient _ _ _ Hresp) in H. destruct H as (_ & Hm & _).
    rewrite (counter_bumped_eq _ _ _ Hm).
    rewrite !(counter_bumped_ne _ _ _ _ Hm) by done. lia.
Qed.

Lemma count_of_cons p message messages :
  count_of p (message :: messages) = (if p message then 1 else 0) + count_of p messages.
Proof. unfold count_of. simpl. destruct (p message); simpl; lia. Qed.

Lemma count_of_split p messages :
  count_of p messages + count_of (fun message => negb (p message)) messages =
  Z.of_nat (length messages).
Proof.
  induction messages as [|message rest IH]; [done |].
  rewrite !count_of_cons. cbn [length]. destruct (p message); simpl; lia.
Qed.

Lemma for_each_message_accounts_for iris_client messages failure vars w :
  raises_only_RequestException iris_client ->
  forallb readable messages = true ->
  let w' := (for_each_message iris_client messages failure vars w).1.1 in
  counter "message_ignore_count" w' =
    counter "message_ignore_count" w + count_of ignorable messages /\
  counter "message_relay_success_count" w' + counter "message_relay_failure_count" w' =
    counter "message_relay_success_count" w + counter "message_relay_failure_count" w +
    count_of (fun message => negb (ignorable message)) messages.
Proof.
  intros Hclient. revert vars w.
  induction messages as [|message rest IH]; intros vars w Hall; simpl.
  - unfold count_of. simpl. lia.
  - simpl in Hall. apply andb_prop in Hall. destruct Hall as [Hm Hrest].
    destruct (relay_accounts_for message iris_client w Hclient Hm) as [Hi Hs].
    destruct (relay_returns message iris_client w Hclient Hm) as [outcome Hr].
    destruct (relay message iris_client w) as [w' r]. cbn [fst snd] in *. subst r.
    destruct (IH {| processed_messages := processed_messages vars + 1;
                    messages_to_mark_read :=
                      messages_to_mark_read vars ++
                      [(set_is_read true message, ["is_read"%string])] |} w' Hrest)
      as [Hi' Hs'].
    rewrite !count_of_cons. cbn zeta in Hi', Hs'.
    split; [etrans; [exact Hi' |] | etrans; [exact Hs' |]];
      destruct (ignorable message); simpl; lia.
Qed.

(** ** What a cycle posts and counts *)

(** (X6) When the counts were gathered or failed with a provider error, the
    requests a cycle adds are those of the messages the loop reached that
    have headers matching no rule, a sender and a text body, one each, in
    the order of the inbox query; the other messages add none.  With a
    client that fails with request errors only and messages that have the
    fields [relay] reads, the loop reaches every message the query
    yielded. *)
Theorem poll_posts_in_order account iris_client w :
  counts_raise_only_EWSError account ->
  let request (message : Message) : option Request :=
    match headers message, sender message, text_body message with
    | Some hs, Some from, Some body =>
        if matches (map header_dict hs) then None
        else Some {| path := "response/email";
                     json := {| payload_headers :=
                                  outgoing_headers message (email_address from)
                                    (map header_dict hs);
                                payload_body := strip body |} |}
    | _, _, _ => None
    end in
  posted (poll account iris_client w).1 =
    posted w ++ omap request (map fst (relay_attempts iris_client (unread account) w)) /\
  (raises_only_RequestException iris_client -> all_readable account ->
   posted (poll account iris_client w).1 = posted w ++ omap request (unread account)).
Proof.
  intros Hcounts request. change request with request_of.
  fold (requests_of (unread account)).
  fold (requests_of (map fst (relay_attempts iris_client (unread account) w))).
  destruct (gather_counts_run account w) as (_ & _ & Hret).
  split; [by apply poll_posted, Hret |].
  intros Hclient Hreadable. rewrite poll_posted by (by apply Hret).
  by destruct (relay_attempts_complete iris_client (unread account) w Hclient Hreadable)
    as (_ & -> & _).
Qed.

Lemma poll_posts_in_order_witness :
  posted (poll (inbox [M3; M2; M1; M0] None) (answering 500) initial_world).1 =
  [relay_request M3 [{| name := lit "Subject"; value := lit "Re: incident 42" |}]
     (address "carol@example.org") (lit "  claim 42  ");
   relay_request M1 [] (address "dave@example.org") (lit "resolve 17")].
Proof.
  destruct (poll_posts_in_order (inbox [M3; M2; M1; M0] None) (answering 500)
              initial_world) as [_ H].
  - split; intros e He; discriminate He.
  - apply H; [intros history request e He; discriminate He | reflexivity].
Defined.

(** (X7) Nothing is remembered between cycles.  When in two successive
    cycles the counts are gathered or fail with a provider error, the POST
    fails with request errors only, the messages have the fields [relay]
    reads, and the second cycle finds the same messages unread (the bulk
    update failed, say), every message the first cycle posted is posted a
    second time, in the same order. *)
Theorem unread_again_is_posted_again account account' iris_client w :
  counts_raise_only_EWSError account ->
  counts_raise_only_EWSError account' ->
  raises_only_RequestException iris_client ->
  all_readable account ->
  unread account' = unread account ->
  posted (poll account iris_client w).1 = posted w ++ requests_of (unread account) /\
  posted (poll account' iris_client (poll account iris_client w).1).1 =
    posted w ++ requests_of (unread account) ++ requests_of (unread account).
Proof.
  intros Hc Hc' Hclient Hreadable Hsame.
  assert (Hreadable' : all_readable account') by (unfold all_readable; by rewrite Hsame).
  destruct (gather_counts_run account w) as (_ & _ & Hret).
  destruct (gather_counts_run account' (poll account iris_client w).1) as (_ & _ & Hret').
  assert (Hfirst : posted (poll account iris_client w).1 =
                     posted w ++ requests_of (unread account)).
  { rewrite poll_posted by (by apply Hret).
    by destruct (relay_attempts_complete iris_client (unread account) w Hclient Hreadable)
      as (_ & -> & _). }
  split; [exact Hfirst |].
  rewrite poll_posted by (by apply Hret').
  destruct (relay_attempts_complete iris_client (unread account')
              (poll account iris_client w).1 Hclient Hreadable') as (_ & -> & _).
  by rewrite Hfirst, Hsame, app_assoc.
Qed.

Lemma unread_again_is_posted_again_witness :
  posted (poll (inbox [M3; M2] None) (answering 200)
            (poll (inbox [M3; M2] None) (answering 200) initial_world).1).1 =
  [relay_request M3 [{| name := lit "Subject"; value := lit "Re: incident 42" |}]
     (address "carol@example.org") (lit "  claim 42  ");
   relay_request M3 [{| name := lit "Subject"; value := lit "Re: incident 42" |}]
     (address "carol@example.org") (lit "  claim 42  ")].
Proof.
  destruct (unread_again_is_posted_again (inbox [M3; M2] None) (inbox [M3; M2] None)
              (answering 200) initial_world) as [_ H].
  - split; intros e He; discriminate He.
  - split; intros e He; discriminate He.
  - intros history request e He. discriminate He.
  - reflexivity.
  - reflexivity.
  - exact H.
Defined.

(** (X8) With counts that are gathered or fail with a provider error, a
    client that fails with request errors only and messages that have the
    fields [relay] reads, a cycle accounts for every message the query
    yielded exactly once: [message_ignore_count] grows by the number of
    messages without headers or matching a rule, the success and failure
    counters together by the number of the others, and the three together
    by the number of messages. *)
Theorem poll_accounts_for_every_message account iris_client w :
  counts_raise_only_EWSError account ->
  raises_only_RequestException iris_client ->
  all_readable account ->
  let added key := counter key (poll account iris_client w).1 - counter key w in
  let ignored (message : Message) : bool :=
    match headers message with
    | Some hs => matches (map header_dict hs)
    | None => true
    end in
  added "message_ignore_count" = count_of ignored (unread account) /\
  added "message_relay_success_count" + added "message_relay_failure_count" =
    count_of (fun message => negb (ignored message)) (unread account) /\
  added "message_ignore_count" + added "message_relay_success_count" +
  added "message_relay_failure_count" = Z.of_nat (length (unread account)).
Proof.
  intros Hcounts Hclient Hreadable added ignored. change ignored with ignorable.
  destruct (gather_counts_run account w) as (_ & _ & Hret).
  destruct (poll_world account iris_client w (Hret Hcounts)) as [_ Hm].
  pose proof (gather_counts_writes_only account w) as Hw1.
  destruct (for_each_message_accounts_for iris_client (unread account)
              (unread_failure account)
              {| processed_messages := 0; messages_to_mark_read := [] |}
              (gather_counts account w).1 Hclient Hreadable) as [Hi Hs].
  fold (run_loop account iris_client (gather_counts account w).1) in Hi, Hs.
  assert (Hkey : forall key, key ∈ relay_counters ->
            counter key (poll account iris_client w).1 =
              counter key (run_loop account iris_client (gather_counts account w).1).1.1 /\
            counter key (gather_counts account w).1 = counter key w).
  { intros key Hin. unfold counter. rewrite (Hm key Hin). split; [done |].
    destruct (Hw1 key) as [Hframe _]. rewrite Hframe; [done |].
    unfold relay_counters in Hin. apply list_elem_of_In in Hin. simpl in Hin.
    rewrite list_elem_of_In. simpl.
    destruct Hin as [<-|[<-|[<-|[]]]]; intros [?|[?|[?|[]]]]; done. }
  destruct (Hkey "message_ignore_count"%string) as [Hi1 Hi2];
    [unfold relay_counters; list_mem |].
  destruct (Hkey "message_relay_success_count"%string) as [Hs1 Hs2];
    [unfold relay_counters; list_mem |].
  destruct (Hkey "message_relay_failure_count"%string) as [Hf1 Hf2];
    [unfold relay_counters; list_mem |].
  unfold added. rewrite Hi1, Hs1, Hf1. rewrite Hi2, Hs2, Hf2 in *.
  pose proof (count_of_split ignorable (unread account)). lia.
Qed.

Lemma poll_accounts_for_every_message_witness :
  counter "message_ignore_count"
    (poll (inbox [M3; M2; M1; M0] None) (answering 500) initial_world).1 = 2 /\
  counter "message_relay_success_count"
    (poll (inbox [M3; M2; M1; M0] None) (answering 500) initial_world).1 +
  counter "message_relay_failure_count"
    (poll (inbox [M3; M2; M1; M0] None) (answering 500) initial_world).1 = 2.
Proof.
  destruct (poll_accounts_for_every_message (inbox [M3; M2; M1; M0] None) (answering 500)
              initial_world) as (Hi & Hs & _).
  - split; intros e He; discriminate He.
  - intros history request e He. discriminate He.
  - reflexivity.
  - cbn zeta in Hi, Hs. split; [| vm_compute in Hs |- *; exact Hs].
    vm_compute in Hi |- *. exact Hi.
Defined.

(** (X10) When the loop ends with an exception that is no provider error,
    raised by [relay] or by the iteration, [poll] raises it: no bulk update
    is issued and [message_process_count] is not written, although the
    requests of the messages reached before have gone out. *)
Theorem poll_aborted_marks_nothing account iris_client w e :
  counts_raise_only_EWSError account ->
  (run_loop account iris_client w).2 = Some e ->
  is_EWSError e = false ->
  (poll account iris_client w).2 = Raise e /\
  bulk_updates (poll account iris_client w).1 = bulk_updates w /\
  metrics (poll account iris_client w).1 !! "message_process_count" =
    metrics w !! "message_process_count" /\
  posted (poll account iris_client w).1 =
    posted w ++ requests_of (map fst (relay_attempts iris_client (unread account) w)).
Proof.
  intros Hcounts Hloop Hews.
  destruct (poll_run account iris_client w) as (w1 & r1 & w2 & r2 & H1 & H2 & H).
  destruct (gather_counts_run account w) as (Hp1 & Hb1 & Hret).
  assert (Hposted := poll_posted account iris_client w (Hret Hcounts)).
  rewrite H1 in Hp1, Hb1, Hret. cbn [fst snd] in *.
  rewrite (Hret Hcounts) in H.
  destruct (iterate_inbox_world account iris_client w1) as (_ & _ & Hr2).
  destruct (iterate_inbox_run account iris_client w1) as (Hb2 & _).
  destruct (run_loop_outcome account iris_client w w1 Hp1) as [Hout _].
  rewrite Hout, Hloop, Hews in Hr2.
  rewrite H2 in Hr2, Hb2. cbn [fst snd] in *. subst r2.
  assert (Hraise : (poll account iris_client w).2 = Raise e) by (by rewrite H).
  split; [exact Hraise |]. split; [rewrite H; cbn [fst]; congruence |].
  split; [by apply (poll_raise_keeps_count account iris_client w e) | exact Hposted].
Qed.

Lemma poll_aborted_marks_nothing_witness :
  (poll (inbox [M3; M1] (Some (OtherException "RuntimeError"))) (answering 200)
     initial_world).2 = Raise (OtherException "RuntimeError") /\
  bulk_updates (poll (inbox [M3; M1] (Some (OtherException "RuntimeError")))
                  (answering 200) initial_world).1 = [] /\
  length (posted (poll (inbox [M3; M1] (Some (OtherException "RuntimeError")))
                    (answering 200) initial_world).1) = 2%nat.
Proof.
  destruct (poll_aborted_marks_nothing
              (inbox [M3; M1] (Some (OtherException "RuntimeError"))) (answering 200)
              initial_world (OtherException "RuntimeError")) as (Hr & Hb & _ & Hp).
  - split; intros e He; discriminate He.
  - vm_compute. reflexivity.
  - reflexivity.
  - split; [exact Hr | split; [exact Hb |]]. rewrite Hp. vm_compute. reflexivity.
Defined.

(** (X11) On an empty inbox a cycle posts nothing, issues no bulk update and
    leaves the three relay counters alone, whatever the collaborators do;
    when [poll] returns, it returns 0 and stores 0 in
    [message_process_count]. *)
Theorem poll_empty_inbox account iris_client w :
  unread account = [] ->
  posted (poll account iris_client w).1 = posted w /\
  bulk_updates (poll account iris_client w).1 = bulk_updates w /\
  (forall key, key ∈ relay_counters ->
     metrics (poll account iris_client w).1 !! key = metrics w !! key) /\
  (forall n, (poll account iris_client w).2 = Return n ->
     n = 0 /\ metrics (poll account iris_client w).1 !! "message_process_count" = Some 0).
Proof.
  intros Hempty.
  destruct (poll_run account iris_client w) as (w1 & r1 & w2 & r2 & H1 & H2 & H).
  destruct (gather_counts_run account w) as (Hp1 & Hb1 & _).
  pose proof (gather_counts_writes_only account w) as Hw1.
  rewrite H1 in Hp1, Hb1, Hw1. cbn [fst snd] in *.
  destruct (iterate_inbox_world account iris_client w1) as (Hp2 & Hm2 & Hr2).
  destruct (iterate_inbox_run account iris_client w1) as (Hb2 & _).
  unfold run_loop in Hp2, Hm2, Hr2. rewrite Hempty in Hp2, Hm2, Hr2.
  rewrite H2 in Hp2, Hm2, Hr2, Hb2. cbn [fst snd for_each_message] in *.
  assert (Hframe : forall w', (forall key, key <> "owa_api_failure_count"%string ->
                       key <> "message_process_count"%string ->
                       metrics w' !! key = metrics w2 !! key) ->
            forall key, key ∈ relay_counters -> metrics w' !! key = metrics w !! key).
  { intros w' Hw' key Hin. unfold relay_counters in Hin. apply list_elem_of_In in Hin.
    simpl in Hin.
    assert (key <> "owa_api_failure_count"%string /\
            key <> "message_process_count"%string /\
            (key ∉ ["total_inbox_count"; "unread_inbox_count";
                    "owa_api_failure_count"]%string)) as (Ha & Hb & Hc).
    { rewrite list_elem_of_In. simpl.
      destruct Hin as [<-|[<-|[<-|[]]]]; (split; [done | split; [done |]]);
        intros [?|[?|[?|[]]]]; done. }
    rewrite Hw', Hm2 by done. by apply Hw1. }
  destruct r1 as [[]|e1].
  - destruct r2 as [vars|e2].
    + assert (vars = {| processed_messages := 0; messages_to_mark_read := [] |}) as ->.
      { destruct (unread_failure account) as [e|]; [destruct (is_EWSError e) |];
          congruence. }
      cbn zeta in H. cbn [messages_to_mark_read processed_messages mark_read] in H.
      unfold mret, Py_ret in H. cbn [fst snd] in H.
      destruct H as (Hr & Hm & Hb & Hposted & _).
      split; [congruence |]. split; [congruence |]. split.
      * apply Hframe. intros key Ha Hb'. rewrite Hm. by rewrite lookup_insert_ne.
      * intros n Hn. rewrite Hr in Hn. injection Hn as <-. split; [done |].
        rewrite Hm. apply lookup_insert_eq.
    + rewrite H. cbn [fst snd]. split; [congruence |]. split; [congruence |].
      split; [by apply Hframe | intros n Hn; discriminate Hn].
  - assert (Hpoll : poll account iris_client w = (w1, Raise e1)) by (by destruct r2).
    rewrite Hpoll. cbn [fst snd]. split; [done |]. split; [done |].
    split; [| intros n Hn; discriminate Hn].
    intros key Hin. apply Hw1. unfold relay_counters in Hin.
    apply list_elem_of_In in Hin. simpl in Hin. rewrite list_elem_of_In. simpl.
    destruct Hin as [<-|[<-|[<-|[]]]]; intros [?|[?|[?|[]]]]; done.
Qed.

Lemma poll_empty_inbox_witness :
  posted (poll (inbox [] None) unreachable initial_world).1 = [] /\
  bulk_updates (poll (inbox [] None) unreachable initial_world).1 = [].
Proof.
  destruct (poll_empty_inbox (inbox [] None) unreachable initial_world)
    as (Hp & Hb & _); [reflexivity |].
  split; [exact Hp | exact Hb].
Defined.

(** ** The inbox counts *)

(** (X12) The two inbox counts.  When both are delivered, both gauges hold
    the delivered values and nothing is logged.  When the total fails, the
    unread count is not asked for and both gauges keep their old values;
    when only the unread count fails, the total gauge holds the new value
    and the unread gauge the old one.  A provider error is logged once,
    counted once in [owa_api_failure_count] and swallowed; any other
    exception is neither logged nor counted and passes on. *)
Theorem gather_counts_outcomes account w :
  let w' := (gather_counts account w).1 in
  let caught e :=
    if is_EWSError e
    then (gather_counts account w).2 = Return tt /\
         counter "owa_api_failure_count" w' = counter "owa_api_failure_count" w + 1 /\
         log w' = log w ++ [counts_error e]
    else (gather_counts account w).2 = Raise e /\
         counter "owa_api_failure_count" w' = counter "owa_api_failure_count" w /\
         log w' = log w in
  match total_count account, unread_count account with
  | Return total, Return unread_now =>
      (gather_counts account w).2 = Return tt /\
      metrics w' !! "total_inbox_count" = Some total /\
      metrics w' !! "unread_inbox_count" = Some unread_now /\
      counter "owa_api_failure_count" w' = counter "owa_api_failure_count" w /\
      log w' = log w
  | Return total, Raise e =>
      metrics w' !! "total_inbox_count" = Some total /\
      metrics w' !! "unread_inbox_count" = metrics w !! "unread_inbox_count" /\
      caught e
  | Raise e, _ =>
      metrics w' !! "total_inbox_count" = metrics w !! "total_inbox_count" /\
      metrics w' !! "unread_inbox_count" = metrics w !! "unread_inbox_count" /\
      caught e
  end.
Proof.
  unfold gather_counts. run.
  destruct (total_count account) as [total|e]; simpl.
  - destruct (unread_count account) as [unread_now|e]; simpl.
    + unfold counter. simpl.
      rewrite lookup_insert_eq, lookup_insert_ne, lookup_insert_eq by done.
      by rewrite !lookup_insert_ne by done.
    + destruct (is_EWSError e); simpl; unfold counter; simpl;
        repeat first [rewrite lookup_insert_eq | rewrite lookup_insert_ne by done]; done.
  - destruct (is_EWSError e); simpl; unfold counter; simpl;
      repeat first [rewrite lookup_insert_eq | rewrite lookup_insert_ne by done]; done.
Qed.

(** ** The proxy adapter *)

(** (X13) After the proxy wiring of [main], the adapter changes no keyword
    argument but [proxies].  With a truthy [proxies] entry in the
    configuration the adapter is installed and every call carries the
    configured proxies, whatever the caller passed; with the entry missing
    or falsy the adapter is not installed and would hand the keyword
    arguments on unchanged.  Sending twice is sending once. *)
Theorem installed_proxies_override {Value : Type} (truth : Value -> bool)
    (proxies : option Value) (kwargs : gmap string Value) :
  let state := install_proxies truth proxies (None, false) in
  (forall key, key <> "proxies"%string ->
     send truth state.1 kwargs !! key = kwargs !! key) /\
  match proxies with
  | Some p =>
      if truth p
      then state.2 = true /\ send truth state.1 kwargs !! "proxies" = Some p
      else state.2 = false /\ send truth state.1 kwargs = kwargs
  | None => state.2 = false /\ send truth state.1 kwargs = kwargs
  end /\
  send truth state.1 (send truth state.1 kwargs) = send truth state.1 kwargs.
Proof.
  unfold install_proxies, send. destruct proxies as [p|]; simpl; [| done].
  destruct (truth p) eqn:Hp; simpl; rewrite ?Hp; [| done].
  split; [intros key Hkey; by rewrite lookup_insert_ne |].
  split; [by rewrite lookup_insert_eq | by rewrite insert_insert_eq].
Qed.

(** ** The sleep interval *)

(** (X14) The sleep interval is never a [ValueError].  A missing entry
    gives 60, an integer is taken as it is (zero and negative ones too), a
    boolean counts as 0 or 1, a text gives its integer value or 60 when it
    has none, and a floating-point number gives what [int] makes of it,
    with 60 for the [ValueError] case.  A null, a list or a dictionary
    raises [TypeError], which the handler does not catch. *)
Theorem nap_time_cases {Float : Type} (int_of_float : Float -> IntError + Z)
    (int_of_str : str -> option Z) (sleep_interval : option (ConfigValue Float)) :
  let nap := nap_time int_of_float int_of_str sleep_interval in
  nap <> inl ValueError /\
  match sleep_interval with
  | None => nap = inr 60
  | Some (ConfigInt n) => nap = inr n
  | Some (ConfigBool b) => nap = inr (if b then 1 else 0)
  | Some (ConfigStr s) => nap = inr (default 60 (int_of_str s))
  | Some (ConfigFloat f) =>
      nap = match int_of_float f with inl ValueError => inr 60 | r => r end
  | Some ConfigNone | Some ConfigList | Some ConfigDict => nap = inl TypeError
  end.
Proof.
  unfold nap_time. destruct sleep_interval as [[| b | n | f | s | |]|]; simpl; try done.
  - destruct (int_of_float f) as [[]|n]; done.
  - destruct (int_of_str s) as [n|]; done.
Qed.

(** ** The scheduler loop *)

(** (X15) As long as, in every cycle, the mailbox provider fails with
    provider errors only, the POST with request errors only, and every
    message has the fields [relay] reads, the scheduler loop never ends:
    after any number of turns it has completed that many cycles, slept
    [nap_time] after each of them, and reported in each summary line the
    number of messages the query of that cycle yielded. *)
Theorem main_loop_keeps_cycling {Time : Type} (elapsed : Time -> Time -> Time)
    (time : nat -> Time) (account_at : nat -> Account)
    (fuel : nat) (boot_time : Time) (nap_time : Z) (iris_client : IrisClient)
    (p : @Process Time) :
  (forall n, raises_only_EWSError (account_at n)) ->
  raises_only_RequestException iris_client ->
  (forall n, all_readable (account_at n)) ->
  let run := main_loop elapsed time account_at fuel boot_time nap_time iris_client p in
  run.2 = None /\
  cycle run.1 = (cycle p + fuel)%nat /\
  sleeps (steps run.1) = sleeps (steps p) ++ replicate fuel nap_time /\
  counts (steps run.1) =
    counts (steps p) ++
    map (fun n => Z.of_nat (length (unread (account_at n)))) (seq (cycle p) fuel).
Proof.
  intros Haccounts Hclient Hreadable. revert p.
  induction fuel as [|fuel IH]; intros p; simpl.
  - rewrite Nat.add_0_r, !app_nil_r. done.
  - destruct (poll_conforming (account_at (cycle p)) iris_client (world p)
                (Haccounts _) Hclient (Hreadable _)) as [Hpoll _].
    destruct (poll (account_at (cycle p)) iris_client (world p)) as [w r].
    simpl in Hpoll. subst r.
    destruct (IH {| world := w; readings := S (S (readings p)); cycle := S (cycle p);
                    steps := steps p ++
                      [Summary (elapsed (time (S (readings p))) (time (readings p)))
                         (Z.of_nat (length (unread (account_at (cycle p))))) nap_time;
                       Uptime (elapsed (time (S (readings p))) boot_time);
                       Sleep nap_time] |}) as (Hr & Hc & Hs & Hn).
    cbn [cycle steps] in *.
    split; [exact Hr |]. split; [rewrite Hc; lia |].
    split; [rewrite Hs | rewrite Hn]; unfold sleeps, counts;
      rewrite omap_app; simpl; by rewrite <- app_assoc.
Qed.

Lemma main_loop_keeps_cycling_witness :
  (main_loop Z.sub (fun n => Z.of_nat n) (fun _ => inbox [M3; M2] None) 2 0 60
     unreachable
     {| world := initial_world; readings := 0; cycle := 0; steps := [] |}).2 = None /\
  sleeps (steps
    (main_loop Z.sub (fun n => Z.of_nat n) (fun _ => inbox [M3; M2] None) 2 0 60
       unreachable
       {| world := initial_world; readings := 0; cycle := 0; steps := [] |}).1) =
  [60; 60].
Proof.
  destruct (main_loop_keeps_cycling Z.sub (fun n => Z.of_nat n)
              (fun _ => inbox [M3; M2] None) 2 0 60 unreachable
              {| world := initial_world; readings := 0; cycle := 0; steps := [] |})
    as (Hr & _ & Hs & _).
  - intros n. split; [split; intros e He; discriminate He |].
    split; [intros e He; discriminate He | intros items e He; discriminate He].
  - intros history request e [= <-]. reflexivity.
  - intros n. reflexivity.
  - split; [exact Hr | exact Hs].
Defined.
